(** * Block_searcher_CW: timestamp <-> block resolution

    A shallow embedding of [src/utils/block-fetcher.ts] and
    [src/routes/api.ts], and the properties of the retry executor, the
    point cache, the binary search, the Solana refiner and the request
    handler.

    Conventions of the embedding:
    - a JavaScript [number] that holds an integer is a [Z]; [Math.abs] is
      [Z.abs], [Math.floor((a + b) / 2)] is [(a + b) / 2] ([Z.div] floors).
      The arithmetic of [Z] is exact, and so is JavaScript's on the integers
      up to 2^53 and on the even integers up to 2^54; the indices and
      timestamps of the examples below are among these;
    - an [async] function is a computation [M A]: it takes the state of the
      process and of its environment (a [World]) and gives back either a
      value or a thrown error, and the next state; [await] is [bind];
    - a [Record<number, number>] is a [gmap Z Z];
    - the remote nodes are a [Remote]: what a request answers may depend on
      how many requests were sent before it, so that transient failures can
      be described. *)

From Equations Require Import Equations.
From stdpp Require Import gmap strings pretty list.
From Stdlib Require Import ZArith Lia Ascii.

Open Scope Z_scope.

(** ** Errors and results *)

(** A thrown value. Every [throw] of the two modules throws [new Error(..)],
    and a rejected [fetch] rejects with an [Error] of another name. *)
Record JsError := mkError { err_name : string; err_message : string }.

Definition newError (msg : string) : JsError := mkError "Error" msg.

(** [String(error)], that is [Error.prototype.toString]. *)
Definition String_ (e : JsError) : string :=
  if decide (err_name e = "") then err_message e
  else if decide (err_message e = "") then err_name e
  else err_name e +:+ ": " +:+ err_message e.

Inductive Res (A : Type) : Type :=
| Ok (v : A)
| Throw (e : JsError).
Arguments Ok {A} v.
Arguments Throw {A} e.

(** ** The state *)

(** The JSON-RPC requests the module sends. *)
Inductive Request : Type :=
| EthGetBlockByNumber (blockNumber : Z)
| EthBlockNumber
| SolGetSlot
| SolGetBlockTime (slot : Z).

#[global] Instance Request_eq_dec : EqDecision Request.
Proof. solve_decision. Defined.

(** The answers of the remote nodes, already decoded: [Throw] is a failed
    [fetch] or a body that is not JSON, [Ok None] is [result: null], and
    [Ok (Some t)] is a result whose (hexadecimal or decimal) field reads
    [t]. The first argument is the number of requests sent before. *)
Record Remote := mkRemote {
  eth_blockNumber : nat -> Res Z;
  eth_getBlockByNumber : nat -> Z -> Res (option Z);
  getSlot : nat -> Res Z;
  getBlockTime : nat -> Z -> Res (option Z) }.

Record World := mkWorld {
  slotTimeCache : gmap Z Z;
  blockTimestampCache : gmap Z Z;
  (** the [cache] of routes/api.ts: chain, then the timestamp as written *)
  routeCache : gmap string (gmap string Z);
  (** milliseconds spent in [delay] *)
  elapsed : Z;
  (** the requests sent, the latest first *)
  sent : list Request;
  (** how many times the operation under test was invoked (the call count
      a test reads off a mock function) *)
  fnCalls : nat }.

Definition set_slotTimeCache (c : gmap Z Z) (w : World) : World :=
  mkWorld c (blockTimestampCache w) (routeCache w) (elapsed w) (sent w) (fnCalls w).
Definition set_blockTimestampCache (c : gmap Z Z) (w : World) : World :=
  mkWorld (slotTimeCache w) c (routeCache w) (elapsed w) (sent w) (fnCalls w).
Definition set_routeCache (c : gmap string (gmap string Z)) (w : World) : World :=
  mkWorld (slotTimeCache w) (blockTimestampCache w) c (elapsed w) (sent w) (fnCalls w).
Definition set_elapsed (t : Z) (w : World) : World :=
  mkWorld (slotTimeCache w) (blockTimestampCache w) (routeCache w) t (sent w) (fnCalls w).
Definition set_sent (l : list Request) (w : World) : World :=
  mkWorld (slotTimeCache w) (blockTimestampCache w) (routeCache w) (elapsed w) l (fnCalls w).
Definition set_fnCalls (n : nat) (w : World) : World :=
  mkWorld (slotTimeCache w) (blockTimestampCache w) (routeCache w) (elapsed w) (sent w) n.

Definition emptyWorld : World := mkWorld ∅ ∅ ∅ 0 [] 0%nat.

(** ** Promises *)

Definition M (A : Type) : Type := World -> Res A * World.

Definition ret {A} (v : A) : M A := fun w => (Ok v, w).
Definition throw {A} (e : JsError) : M A := fun w => (Throw e, w).
Definition bind {A B} (m : M A) (k : A -> M B) : M B :=
  fun w => match m w with
           | (Ok v, w') => k v w'
           | (Throw e, w') => (Throw e, w')
           end.
(** [try { m } catch (error) { h error }] *)
Definition tryCatch {A} (m : M A) (h : JsError -> M A) : M A :=
  fun w => match m w with
           | (Ok v, w') => (Ok v, w')
           | (Throw e, w') => h e w'
           end.

Declare Scope promise_scope.
Delimit Scope promise_scope with promise.
Notation "x <- c1 ;; c2" := (bind c1 (fun x => c2))
  (at level 100, c1 at next level, right associativity) : promise_scope.
Notation "c1 ;;; c2" := (bind c1 (fun _ => c2))
  (at level 100, right associativity) : promise_scope.
Open Scope promise_scope.

(** ** block-fetcher.ts *)

Definition MAX_SEARCH_OFFSET : Z := 100.
Definition TIME_DIFFERENCE_THRESHOLD : Z := 60.
Definition MAX_SAFE_INTEGER : Z := 9007199254740991.

(** [delay(ms)]: a timer of a negative duration fires at once. *)
Definition delay (ms : Z) : M unit :=
  fun w => (Ok tt, set_elapsed (elapsed w + Z.max 0 ms) w).

(** The [for] loop of [retry]; [remaining] counts the iterations left, which
    is [retries - attempt] when that is positive and none otherwise. *)
Fixpoint retry_from {A} (fn : M A) (remaining : nat)
    (attempt retries delayMs : Z) : M A :=
  match remaining with
  | O => throw (newError "Max retries reached without success.")
  | S remaining' =>
      tryCatch fn (fun error =>
        if retries - 1 <=? attempt
        then throw (newError ("Max retries reached: " +:+ String_ error))
        else delay delayMs ;;;
             retry_from fn remaining' (attempt + 1) retries delayMs)
  end.

Definition retry {A} (fn : M A) (retries delayMs : Z) : M A :=
  retry_from fn (Z.to_nat retries) 0 retries delayMs.

(** The two module-level caches, as [getCachedData] receives them (by
    reference). *)
Inductive CacheRef : Type := SlotTimeCache | BlockTimestampCache.

#[global] Instance CacheRef_eq_dec : EqDecision CacheRef.
Proof. solve_decision. Defined.

Definition readCache (c : CacheRef) (w : World) : gmap Z Z :=
  match c with
  | SlotTimeCache => slotTimeCache w
  | BlockTimestampCache => blockTimestampCache w
  end.

Definition writeCache (c : CacheRef) (m : gmap Z Z) (w : World) : World :=
  match c with
  | SlotTimeCache => set_slotTimeCache m w
  | BlockTimestampCache => set_blockTimestampCache m w
  end.

Definition getCachedData (cache : CacheRef) (key : Z) (fetchFunc : M Z) : M Z :=
  retry (fun w =>
           match readCache cache w !! key with
           | Some v => ret v w
           | None =>
               (data <- fetchFunc ;;
                fun w' => (Ok data, writeCache cache (<[key := data]> (readCache cache w')) w')) w
           end) 3 1000.

(** How the binary search loop is left: by [return middleBlock] inside the
    loop, or by falling out of it with the closest block seen. *)
Inductive SearchExit : Type :=
| Found (middleBlock : Z)
| Closest (closestBlock : Z).

Definition exitIndex (x : SearchExit) : Z :=
  match x with Found i => i | Closest i => i end.

(** The [while (startBlock <= endBlock)] loop, which
    [getEVMBlockByTimestamp] and [getSolanaBlockByTimestamp] both have, the
    first over [getBlockTimestamp] and the second over [getCachedSlotTime]
    (here [lookup]). [probed] is a ghost: the indices looked up so far, in
    order. The loop is defined by recursion on the width of the window. *)
Equations? searchLoop (lookup : Z -> M Z) (timestamp : Z)
    (startBlock endBlock closestBlock closestTimeDifference : Z)
    (probed : list Z) (w : World) : Res (SearchExit * list Z) * World
  by wf (Z.to_nat (endBlock - startBlock + 1)) lt :=
searchLoop lookup timestamp startBlock endBlock closestBlock
    closestTimeDifference probed w with Z_le_gt_dec startBlock endBlock := {
  | right _ => (Ok (Closest closestBlock, probed), w)
  | left _ =>
      let middleBlock := (startBlock + endBlock) / 2 in
      match lookup middleBlock w with
      | (Throw e, w') => (Throw e, w')
      | (Ok middleBlockTime, w') =>
          let timeDifference := Z.abs (middleBlockTime - timestamp) in
          let closer := timeDifference <? closestTimeDifference in
          let closestBlock' := if closer then middleBlock else closestBlock in
          let closestTimeDifference' :=
            if closer then timeDifference else closestTimeDifference in
          if middleBlockTime =? timestamp
          then (Ok (Found middleBlock, probed ++ [middleBlock]), w')
          else if middleBlockTime <? timestamp
          then searchLoop lookup timestamp (middleBlock + 1) endBlock
                 closestBlock' closestTimeDifference'
                 (probed ++ [middleBlock]) w'
          else searchLoop lookup timestamp startBlock (middleBlock - 1)
                 closestBlock' closestTimeDifference'
                 (probed ++ [middleBlock]) w'
      end }.
Proof.
  all: assert (startBlock <= (startBlock + endBlock) / 2 <= endBlock)
    by (split; [apply Z.div_le_lower_bound | apply Z.div_le_upper_bound]; lia);
    lia.
Qed.

Section BlockFetcher.

Variable net : Remote.

(** [fetch] and [response.json()] together *)
Definition rpc {A} (rq : Request) (answer : nat -> Res A) : M A :=
  fun w => (answer (length (sent w)), set_sent (rq :: sent w) w).

Definition getBlockTimestamp (blockNumber : Z) : M Z :=
  getCachedData BlockTimestampCache blockNumber
    (result <- rpc (EthGetBlockByNumber blockNumber)
                   (fun n => eth_getBlockByNumber net n blockNumber) ;;
     match result with
     | None => throw (newError ("No data found for block number: "
                                +:+ pretty blockNumber))
     | Some t => ret t
     end).

Definition getLatestBlockNumber : M Z :=
  rpc EthBlockNumber (eth_blockNumber net).

(** [getEVMBlockByTimestamp], with the ghost list of the blocks probed *)
Definition getEVMBlockByTimestamp_probes (timestamp : Z) : M (Z * list Z) :=
  latestBlock <- getLatestBlockNumber ;;
  r <- searchLoop getBlockTimestamp timestamp 0 latestBlock 0
         MAX_SAFE_INTEGER [] ;;
  ret (exitIndex (fst r), snd r).

Definition getEVMBlockByTimestamp (timestamp : Z) : M Z :=
  r <- getEVMBlockByTimestamp_probes timestamp ;; ret (fst r).

Definition getLatestSlot : M Z := rpc SolGetSlot (getSlot net).

Definition getSlotTime (slot : Z) : M Z :=
  result <- rpc (SolGetBlockTime slot) (fun n => getBlockTime net n slot) ;;
  match result with
  | None => throw (newError ("No timestamp found for slot " +:+ pretty slot))
  | Some t => ret t
  end.

Definition getCachedSlotTime (slot : Z) : M Z :=
  getCachedData SlotTimeCache slot (getSlotTime slot).

(** The [for (offset = 1; offset <= MAX_SEARCH_OFFSET; offset++)] loop of
    [refineSlotSearchSolana]; [remaining] counts the iterations left. *)
Fixpoint refineLoop (remaining : nat)
    (offset initialSlot targetTimestamp closestSlot closestTimeDifference : Z)
    : M Z :=
  match remaining with
  | O => ret closestSlot
  | S remaining' =>
      let forwardSlot := initialSlot + offset in
      let backwardSlot := initialSlot - offset in
      forwardTime <- getCachedSlotTime forwardSlot ;;
      let forwardDifference := Z.abs (forwardTime - targetTimestamp) in
      let closer := forwardDifference <? closestTimeDifference in
      let closestSlot := if closer then forwardSlot else closestSlot in
      let closestTimeDifference :=
        if closer then forwardDifference else closestTimeDifference in
      backwardTime <- getCachedSlotTime backwardSlot ;;
      let backwardDifference := Z.abs (backwardTime - targetTimestamp) in
      let closer := backwardDifference <? closestTimeDifference in
      let closestSlot := if closer then backwardSlot else closestSlot in
      let closestTimeDifference :=
        if closer then backwardDifference else closestTimeDifference in
      if closestTimeDifference <=? TIME_DIFFERENCE_THRESHOLD
      then ret closestSlot
      else refineLoop remaining' (offset + 1) initialSlot targetTimestamp
             closestSlot closestTimeDifference
  end.

Definition refineSlotSearchSolana (initialSlot targetTimestamp : Z) : M Z :=
  initialTime <- getCachedSlotTime initialSlot ;;
  refineLoop (Z.to_nat MAX_SEARCH_OFFSET) 1 initialSlot targetTimestamp
    initialSlot (Z.abs (initialTime - targetTimestamp)).

Definition getSolanaBlockByTimestamp (timestamp : Z) : M Z :=
  latestSlot <- getLatestSlot ;;
  genesisTimestamp <- getCachedSlotTime 0 ;;
  if timestamp <=? genesisTimestamp then ret 0
  else
    r <- searchLoop getCachedSlotTime timestamp 0 latestSlot 0
           MAX_SAFE_INTEGER [] ;;
    match fst r with
    | Found middleSlot => ret middleSlot
    | Closest closestSlot => refineSlotSearchSolana closestSlot timestamp
    end.

Definition getTimestampByBlockNumber (blockNumber : Z) : M Z :=
  getBlockTimestamp blockNumber.

Definition getTimestampBySlot (slot : Z) : M Z :=
  latestSlot <- getLatestSlot ;;
  if (slot <? 0) || (latestSlot <? slot)
  then throw (newError ("Slot " +:+ pretty slot
                        +:+ " is out of range. Latest slot is "
                        +:+ pretty latestSlot +:+ "."))
  else getCachedSlotTime slot.

(** The functions the module exports, as one type of calls. *)
Inductive Operation : Type :=
| CallDelay (ms : Z)
| CallGetBlockTimestamp (blockNumber : Z)
| CallGetLatestBlockNumber
| CallGetEVMBlockByTimestamp (timestamp : Z)
| CallGetLatestSlot
| CallGetCachedSlotTime (slot : Z)
| CallGetSlotTime (slot : Z)
| CallGetSolanaBlockByTimestamp (timestamp : Z)
| CallGetTimestampByBlockNumber (blockNumber : Z)
| CallGetTimestampBySlot (slot : Z).

Definition perform (op : Operation) : M Z :=
  match op with
  | CallDelay ms => delay ms ;;; ret 0
  | CallGetBlockTimestamp n => getBlockTimestamp n
  | CallGetLatestBlockNumber => getLatestBlockNumber
  | CallGetEVMBlockByTimestamp t => getEVMBlockByTimestamp t
  | CallGetLatestSlot => getLatestSlot
  | CallGetCachedSlotTime s => getCachedSlotTime s
  | CallGetSlotTime s => getSlotTime s
  | CallGetSolanaBlockByTimestamp t => getSolanaBlockByTimestamp t
  | CallGetTimestampByBlockNumber n => getTimestampByBlockNumber n
  | CallGetTimestampBySlot s => getTimestampBySlot s
  end.

(** A sequence of calls, one after the other, whatever each returns. *)
Fixpoint performAll (ops : list Operation) (w : World) : World :=
  match ops with
  | [] => w
  | op :: ops' => performAll ops' (snd (perform op w))
  end.

End BlockFetcher.

(** ** routes/api.ts *)

(** [s.split(sep)] for a one-character separator *)
Fixpoint split (sep : Ascii.ascii) (s : string) : list string :=
  match s with
  | EmptyString => [EmptyString]
  | String c s' =>
      if Ascii.eqb c sep then EmptyString :: split sep s'
      else match split sep s' with
           | x :: xs => String c x :: xs
           | [] => [String c EmptyString]
           end
  end.

(** White space, among the characters of one byte *)
Definition isWhiteSpace (c : Ascii.ascii) : bool :=
  let n := Ascii.nat_of_ascii c in
  (Nat.eqb n 32 || Nat.leb 9 n && Nat.leb n 13)%bool.

Fixpoint trimStart (s : string) : string :=
  match s with
  | EmptyString => EmptyString
  | String c s' => if isWhiteSpace c then trimStart s' else s
  end.

Fixpoint trimEnd (s : string) : string :=
  match s with
  | EmptyString => EmptyString
  | String c s' =>
      match trimEnd s' with
      | EmptyString => if isWhiteSpace c then EmptyString else String c EmptyString
      | t => String c t
      end
  end.

Definition trim (s : string) : string := trimEnd (trimStart s).

(** The three query parameters the handler reads off its context. *)
Record Query := mkQuery {
  q_timestamps : option string;
  q_blockNumber : option string;
  q_chain : option string }.

(** What the handler answers: [c.json(results)] (status 200),
    [c.text(body, status)] or [c.json({ error }, status)]. *)
Inductive Response : Type :=
| JsonResults (results : gmap string (option Z))
| TextBody (body : string) (status : Z)
| JsonError (error : string) (status : Z).

(** A query parameter that is truthy: present and not empty. *)
Definition truthy (p : option string) : option string :=
  match p with
  | Some s => if decide (s = "") then None else Some s
  | None => None
  end.



Section Api.

Variable net : Remote.

(** [Number(s)] on the strings of the query. The handler gives its result
    to the resolvers as it is; the strings are taken to denote integers. *)
Variable Number : string -> Z.

(** [cache[chain] && cache[chain][timestamp]], when truthy, for a chain and a
    timestamp that are ordinary keys: the own property, if any *)
Definition routeCached (chain timestamp : string) (w : World) : option Z :=
  match routeCache w !! chain with
  | Some perChain =>
      match perChain !! timestamp with
      | Some blockNumber => if blockNumber =? 0 then None else Some blockNumber
      | None => None
      end
  | None => None
  end.

(** [chain === "solana" ? await getSolanaBlockByTimestamp(t)
                        : await getEVMBlockByTimestamp(t)] *)
Definition blockNumberFor (chain : string) (timestamp : Z) : M Z :=
  if decide (chain = "solana") then getSolanaBlockByTimestamp net timestamp
  else getEVMBlockByTimestamp net timestamp.

(** [chain === "solana" ? await getTimestampBySlot(n)
                        : await getTimestampByBlockNumber(n)] *)
Definition timestampFor (chain : string) (blockNumber : Z) : M Z :=
  if decide (chain = "solana") then getTimestampBySlot net blockNumber
  else getTimestampByBlockNumber net blockNumber.

(** The body of [for (const timestamp of timestamps)], for a chain and a
    timestamp that are ordinary keys: the assignments to [results[timestamp]]
    and [cache[chain][timestamp]] set own properties *)
Definition resolveTimestamp (chain timestamp : string)
    (results : gmap string (option Z)) : M (gmap string (option Z)) :=
  fun w =>
    match routeCached chain timestamp w with
    | Some blockNumber => (Ok (<[timestamp := Some blockNumber]> results), w)
    | None =>
        tryCatch
          (blockNumber <- blockNumberFor chain (Number timestamp) ;;
           fun w' =>
             (Ok (<[timestamp := Some blockNumber]> results),
              set_routeCache
                (<[chain := <[timestamp := blockNumber]>
                              (default ∅ (routeCache w' !! chain))]>
                   (routeCache w')) w'))
          (fun err => ret (<[timestamp := None]> results)) w
    end.

Fixpoint resolveTimestamps (chain : string) (timestamps : list string)
    (results : gmap string (option Z)) : M (gmap string (option Z)) :=
  match timestamps with
  | [] => ret results
  | timestamp :: rest =>
      results' <- resolveTimestamp chain timestamp results ;;
      resolveTimestamps chain rest results'
  end.

Definition handleApiRoute (c : Query) : M Response :=
  let chain := default "evm" (truthy (q_chain c)) in
  match truthy (q_timestamps c) with
  | Some timestampsParam =>
      let timestamps := map trim (split ","%char timestampsParam) in
      results <- resolveTimestamps chain timestamps ∅ ;;
      ret (JsonResults results)
  | None =>
      match truthy (q_blockNumber c) with
      | Some blockNumberParam =>
          tryCatch
            (let blockNumber := Number blockNumberParam in
             timestamp <- timestampFor chain blockNumber ;;
             ret (JsonResults (<[blockNumberParam := Some timestamp]> ∅)))
            (fun error => ret (TextBody ("Error: " +:+ err_message error) 500))
      | None => ret (JsonError "No timestamps or block number provided" 400)
      end
  end.

End Api.

(** ** Fixtures of the properties *)

(** An operation observed through its outcomes only, as a mock function is:
    its [i]-th invocation (from 0) has the outcome [outcomes i]. *)
Definition mockFn {A} (outcomes : nat -> Res A) : M A :=
  fun w => (outcomes (fnCalls w), set_fnCalls (S (fnCalls w)) w).

(** The world after [calls] more invocations of the mock and [waits]
    delays. *)
Definition afterAttempts (delayMs : Z) (calls waits : nat) (w : World) : World :=
  set_fnCalls (fnCalls w + calls)
    (set_elapsed (elapsed w + Z.of_nat waits * Z.max 0 delayMs) w).

(** The test of the repository: one failure, then "Success", two attempts. *)
Definition failOnceThenSucceed : nat -> Res string :=
  fun i => match i with
           | O => Throw (newError "First attempt failed")
           | _ => Ok "Success"
           end.

(** The request a point lookup sends when its key is not cached. *)
Definition requestFor (cache : CacheRef) (key : Z) : Request :=
  match cache with
  | SlotTimeCache => SolGetBlockTime key
  | BlockTimestampCache => EthGetBlockByNumber key
  end.

(** How many times the timestamp of [key] was fetched from the remote. *)
Definition fetches (cache : CacheRef) (key : Z) (w : World) : nat :=
  count_occ Request_eq_dec (sent w) (requestFor cache key).

(** A cached point lookup, as a call of the module. *)
Definition lookupCall (a : CacheRef * Z) : Operation :=
  match fst a with
  | SlotTimeCache => CallGetCachedSlotTime (snd a)
  | BlockTimestampCache => CallGetBlockTimestamp (snd a)
  end.

(** The remote has a timestamp for [key], whenever it is asked. *)
Definition answers (net : Remote) (cache : CacheRef) (key : Z) : Prop :=
  forall n, exists t,
    match cache with
    | SlotTimeCache => getBlockTime net n key
    | BlockTimestampCache => eth_getBlockByNumber net n key
    end = Ok (Some t).

(** Every entry of the two caches of [w] is an entry of [w'], unchanged. *)
Definition cachesGrow (w w' : World) : Prop :=
  forall c, readCache c w ⊆ readCache c w'.

(** A computation that, whatever it returns, leaves the cached entries as
    they are. *)
Definition preserving {A} (m : M A) : Prop :=
  forall w, cachesGrow w (snd (m w)).

(** A remote that always gives the same answers: ten blocks after the
    genesis block, one every ten seconds from 1000; slots 0 to 100000, one a
    second from 5000. *)
Definition exampleNet : Remote :=
  mkRemote
    (fun _ => Ok 10)
    (fun _ i => if decide (0 <= i <= 10) then Ok (Some (1000 + 10 * i)) else Ok None)
    (fun _ => Ok 100000)
    (fun _ i => if decide (0 <= i <= 100000) then Ok (Some (5000 + i)) else Ok None).

(** The EVM chain has the blocks [0..N], block [i] stamped [ts i], and the
    remote always says so. *)
Definition evmChain (net : Remote) (N : Z) (ts : Z -> Z) : Prop :=
  (forall n, eth_blockNumber net n = Ok N) /\
  (forall n i, 0 <= i <= N -> eth_getBlockByNumber net n i = Ok (Some (ts i))).

(** What the block cache holds for the blocks [0..N] is what the chain has. *)
Definition blockCacheAgrees (N : Z) (ts : Z -> Z) (w : World) : Prop :=
  forall i t, 0 <= i <= N -> blockTimestampCache w !! i = Some t -> t = ts i.

(** [c] is the first of [probed] whose distance to the target, [d], is the
    least of [probed]. *)
Definition firstBest (ts : Z -> Z) (target : Z) (probed : list Z) (c d : Z)
    : Prop :=
  exists before after,
    probed = before ++ c :: after /\
    Z.abs (ts c - target) = d /\
    (forall p, p ∈ before -> d < Z.abs (ts p - target)) /\
    (forall p, p ∈ after -> d <= Z.abs (ts p - target)).

(** The pair [closestBlock], [closestTimeDifference] after the lookups of
    [probed]: either still the initial one, no distance having been below
    [MAX_SAFE_INTEGER], or the first best of [probed]. *)
Definition candidate (ts : Z -> Z) (target : Z) (probed : list Z) (c d : Z)
    : Prop :=
  (d = MAX_SAFE_INTEGER /\ c = 0 /\
   forall p, p ∈ probed -> MAX_SAFE_INTEGER <= Z.abs (ts p - target))
  \/ (d < MAX_SAFE_INTEGER /\ firstBest ts target probed c d).

(** What the search loop returns over the indices [0..N]. *)
Definition searchPost (N : Z) (ts : Z -> Z) (target : Z)
    (x : SearchExit) (probed : list Z) : Prop :=
  (forall p, p ∈ probed -> 0 <= p <= N) /\
  match x with
  | Found m =>
      exists before,
        probed = before ++ [m] /\ ts m = target /\
        (forall p, p ∈ before -> ts p <> target)
  | Closest c =>
      (forall p, p ∈ probed -> ts p <> target) /\
      exists d, candidate ts target probed c d /\
                forall i, 0 <= i <= N -> d <= Z.abs (ts i - target)
  end.

(** An EVM chain of two blocks, stamped 1000 and 2000. *)
Definition twoBlocks : Remote :=
  mkRemote
    (fun _ => Ok 1)
    (fun _ i => if decide (0 <= i <= 1) then Ok (Some (1000 + 1000 * i)) else Ok None)
    (fun _ => Throw (newError "fetch failed"))
    (fun _ _ => Throw (newError "fetch failed")).

(** The timestamps of the blocks of [exampleNet] and of [twoBlocks]. *)
Definition exampleTs (i : Z) : Z := 1000 + 10 * i.
Definition twoBlocksTs (i : Z) : Z := 1000 + 1000 * i.

(** The remote always gives slot [i] the time [slots i], and none when
    [slots i] is [None] (a skipped slot, or one out of the chain). *)
Definition slotSource (net : Remote) (slots : Z -> option Z) : Prop :=
  forall n i, getBlockTime net n i = Ok (slots i).

(** What the slot cache holds is what the chain has. *)
Definition slotCacheAgrees (slots : Z -> option Z) (w : World) : Prop :=
  forall i t, slotTimeCache w !! i = Some t -> slots i = Some t.

(** The requests sent between [w] and [w'] ask for the time of slots
    within [k] of [s]. *)
Definition sentWithin (s k : Z) (w w' : World) : Prop :=
  forall rq, rq ∈ sent w' ->
             rq ∈ sent w \/ exists p, rq = SolGetBlockTime p /\ s - k <= p <= s + k.

(** The update [if (difference < closestTimeDifference)] of the refiner, on
    the pair [closestSlot], [closestTimeDifference]. *)
Definition keepCloser (slot time target : Z) (best : Z * Z) : Z * Z :=
  if Z.abs (time - target) <? snd best then (slot, Z.abs (time - target))
  else best.

(** The error a lookup of a slot without a time ends in. *)
Definition slotNotFound (slot : Z) : JsError :=
  newError ("Max retries reached: Error: No timestamp found for slot "
            +:+ pretty slot).

(** What the refiner returns from the seed [s]: the slot [r], after [k]
    iterations. [r] is within [k] of the seed and no slot within [k] is
    closer to the target; the loop ran to the end or stopped below the
    threshold; and it did not stop before: after each earlier iteration every
    slot looked up so far was beyond the threshold. *)
Definition refinePost (ts : Z -> Z) (s target r k : Z) : Prop :=
  1 <= k <= MAX_SEARCH_OFFSET /\
  s - k <= r <= s + k /\
  (forall i, s - k <= i <= s + k ->
             Z.abs (ts r - target) <= Z.abs (ts i - target)) /\
  (Z.abs (ts r - target) <= TIME_DIFFERENCE_THRESHOLD \/ k = MAX_SEARCH_OFFSET) /\
  (2 <= k ->
   forall i, s - (k - 1) <= i <= s + (k - 1) ->
             TIME_DIFFERENCE_THRESHOLD < Z.abs (ts i - target)).

(** A Solana remote with a time for every slot, a hundred seconds apart,
    the even slots thirty seconds late. *)
Definition noisyTs (i : Z) : Z := 100 * i + (if Z.even i then 30 else 0).

Definition noisySlots : Remote :=
  mkRemote
    (fun _ => Throw (newError "fetch failed"))
    (fun _ _ => Throw (newError "fetch failed"))
    (fun _ => Ok 1000)
    (fun _ i => Ok (Some (noisyTs i))).

(** The slots of [exampleNet]: none before slot 0 or after slot 100000. *)
Definition exampleSlots (i : Z) : option Z :=
  if decide (0 <= i <= 100000) then Some (5000 + i) else None.

(** [Number(s)] on the strings of decimal digits. *)
Definition digitValue (c : Ascii.ascii) : Z := Z.of_nat (Ascii.nat_of_ascii c) - 48.

Fixpoint decimalFrom (acc : Z) (s : string) : Z :=
  match s with
  | EmptyString => acc
  | String c s' => decimalFrom (10 * acc + digitValue c) s'
  end.

Definition decimalNumber (s : string) : Z := decimalFrom 0 s.

(** Two timestamps on the Solana path: the first is the time of slot 70, the
    second is after the time of the latest slot. *)
Definition batchQuery : Query :=
  mkQuery (Some "5070, 200000") None (Some "solana").



(** The number of lookups a search over a window of [width] indices can
    make: none for an empty window, [log2 width + 1] otherwise. *)
Definition probeBound (width : Z) : nat :=
  if decide (width <= 0) then 0%nat else Z.to_nat (Z.log2 width + 1).

(** ** Fixtures of the further properties *)

(** What the remote answers to the request for the timestamp of [key], the
    [n]-th request sent. *)
Definition pointAnswer (net : Remote) (cache : CacheRef) (n : nat) (key : Z)
    : Res (option Z) :=
  match cache with
  | SlotTimeCache => getBlockTime net n key
  | BlockTimestampCache => eth_getBlockByNumber net n key
  end.

(** The message of the error a fetch throws on [result: null]. *)
Definition notFoundMessage (cache : CacheRef) (key : Z) : string :=
  match cache with
  | SlotTimeCache => "No timestamp found for slot " +:+ pretty key
  | BlockTimestampCache => "No data found for block number: " +:+ pretty key
  end.

(** What an answer makes the fetch do: return a timestamp, or throw. *)
Definition fetched (cache : CacheRef) (key : Z) (answer : Res (option Z))
    : Res Z :=
  match answer with
  | Throw e => Throw e
  | Ok None => Throw (newError (notFoundMessage cache key))
  | Ok (Some t) => Ok t
  end.

(** The fetch function [getCachedSlotTime] and [getBlockTimestamp] give to
    [getCachedData]. *)
Definition pointFetch (net : Remote) (cache : CacheRef) (key : Z) : M Z :=
  match cache with
  | SlotTimeCache => getSlotTime net key
  | BlockTimestampCache =>
      result <- rpc (EthGetBlockByNumber key)
                    (fun n => eth_getBlockByNumber net n key) ;;
      match result with
      | None => throw (newError ("No data found for block number: "
                                 +:+ pretty key))
      | Some t => ret t
      end
  end.

(** The world after [tries] requests for [key], the last of which may have
    been answered with the timestamp [stored]. *)
Definition afterTries (cache : CacheRef) (key : Z) (tries : nat)
    (stored : option Z) (w : World) : World :=
  let w' := set_elapsed (elapsed w + 1000 * Z.of_nat (tries - 1))
              (set_sent (repeat (requestFor cache key) tries ++ sent w) w) in
  match stored with
  | Some t => writeCache cache (<[key := t]> (readCache cache w)) w'
  | None => w'
  end.

(** The function [getCachedData] gives to [retry]: the cached value, or
    the fetched one, stored. *)
Definition cachedOrFetch (cache : CacheRef) (key : Z) (fetchFunc : M Z) : M Z :=
  fun w =>
    match readCache cache w !! key with
    | Some v => ret v w
    | None =>
        (data <- fetchFunc ;;
         fun w' => (Ok data, writeCache cache (<[key := data]> (readCache cache w')) w')) w
    end.

(** The world before the attempt [i] (from 0) of a lookup of [key] that
    started in [w]: [i] requests were sent and [i] delays have passed. *)
Definition beforeTry (cache : CacheRef) (key : Z) (i : nat) (w : World) : World :=
  set_elapsed (elapsed w + 1000 * Z.of_nat i)
    (set_sent (repeat (requestFor cache key) i ++ sent w) w).

(** A remote whose first two requests fail; from the third on it answers
    like [exampleNet]. *)
Definition flakyNet : Remote :=
  mkRemote
    (fun n => if (n <? 2)%nat then Throw (mkError "TypeError" "fetch failed")
              else eth_blockNumber exampleNet n)
    (fun n i => if (n <? 2)%nat then Throw (mkError "TypeError" "fetch failed")
                else eth_getBlockByNumber exampleNet n i)
    (fun n => if (n <? 2)%nat then Throw (mkError "TypeError" "fetch failed")
              else getSlot exampleNet n)
    (fun n i => if (n <? 2)%nat then Throw (mkError "TypeError" "fetch failed")
                else getBlockTime exampleNet n i).

(** A computation that, whatever it returns, sends at most [requests]
    requests and spends at most [seconds] seconds in delays. *)
Definition costs {A} (requests seconds : nat) (m : M A) : Prop :=
  forall w,
    (length (sent (snd (m w))) <= length (sent w) + requests)%nat /\
    elapsed w <= elapsed (snd (m w)) <= elapsed w + 1000 * Z.of_nat seconds.

(** A Solana remote that says the latest slot is 3 and has a time for
    every slot, a hundred seconds apart: a node whose latest slot lags. *)
Definition laggingNet : Remote :=
  mkRemote
    (fun _ => Throw (mkError "TypeError" "fetch failed"))
    (fun _ _ => Throw (mkError "TypeError" "fetch failed"))
    (fun _ => Ok 3)
    (fun _ i => Ok (Some (100 * i))).

(** A computation that takes every world to one related to it by [R],
    whatever it returns. *)
Definition keeps {A} (R : World -> World -> Prop) (m : M A) : Prop :=
  forall w, R w (snd (m w)).

(** Every cached timestamp of [w] was cached in [base] already or is the
    answer of the remote to a request for that key: the request number [n]
    of the log (from the oldest). *)
Definition grounded (net : Remote) (base w : World) : Prop :=
  forall c key t,
    readCache c w !! key = Some t ->
    readCache c base !! key = Some t \/
    exists n : nat,
      rev (sent w) !! n = Some (requestFor c key) /\
      pointAnswer net c n key = Ok (Some t).

(** From [w] to [w'] the log of requests has only grown, and the caches
    have stayed grounded. *)
Definition groundedStep (net : Remote) (base w w' : World) : Prop :=
  (exists more, sent w' = more ++ sent w) /\
  (grounded net base w -> grounded net base w').


(** An EVM chain of five blocks, the middle three stamped alike. *)
Definition tiedTs (i : Z) : Z :=
  if i <=? 0 then 1000 else if i <=? 3 then 2000 else 3000.

Definition tiedBlocks : Remote :=
  mkRemote
    (fun _ => Ok 4)
    (fun _ i => if decide (0 <= i <= 4) then Ok (Some (tiedTs i)) else Ok None)
    (fun _ => Throw (mkError "TypeError" "fetch failed"))
    (fun _ _ => Throw (mkError "TypeError" "fetch failed")).

(** The place of a slot in the order in which the refiner looks slots up
    from the seed [s]: the seed, one ahead, one behind, two ahead, two
    behind, and so on. *)
Definition probeRank (s i : Z) : Z :=
  if i =? s then 0 else if s <? i then 2 * (i - s) - 1 else 2 * (s - i).
(** * Properties *)

(** Two worlds are equal when their six fields are. *)
Lemma World_eq (w1 w2 : World) :
  slotTimeCache w1 = slotTimeCache w2 ->
  blockTimestampCache w1 = blockTimestampCache w2 ->
  routeCache w1 = routeCache w2 ->
  elapsed w1 = elapsed w2 ->
  sent w1 = sent w2 ->
  fnCalls w1 = fnCalls w2 ->
  w1 = w2.
Proof. destruct w1, w2; simpl; intros; subst; reflexivity. Qed.

(** ** The retry executor *)

Section Retry.

Context {A : Type}.
Variable outcomes : nat -> Res A.
Variables retries delayMs : Z.

Lemma retry_from_success (j : nat) :
  forall (remaining : nat) (attempt : Z) (w : World) (v : A),
    (forall i, (i < j)%nat -> exists e, outcomes (fnCalls w + i) = Throw e) ->
    outcomes (fnCalls w + j) = Ok v ->
    (j < remaining)%nat ->
    retries - attempt = Z.of_nat remaining ->
    retry_from (mockFn outcomes) remaining attempt retries delayMs w
    = (Ok v, afterAttempts delayMs (S j) j w).
Proof.
  induction j as [|j IH]; intros remaining attempt w v Hfail Hok Hlt Hrem.
  - destruct remaining as [|remaining]; [lia|].
    simpl. unfold tryCatch, mockFn. rewrite Nat.add_0_r in Hok. rewrite Hok.
    f_equal. apply World_eq; simpl; try reflexivity; lia.
  - destruct remaining as [|remaining]; [lia|].
    simpl. unfold tryCatch at 1. unfold mockFn at 1.
    destruct (Hfail 0%nat ltac:(lia)) as [e He].
    rewrite Nat.add_0_r in He. rewrite He.
    destruct (Z.leb_spec (retries - 1) attempt) as [Hle|_]; [lia|].
    unfold bind, delay.
    rewrite (IH remaining (attempt + 1) _ v); simpl.
    + f_equal. apply World_eq; simpl; try reflexivity; lia.
    + intros i Hi. destruct (Hfail (S i) ltac:(lia)) as [e' He'].
      exists e'. rewrite <- He'. f_equal. lia.
    + rewrite <- Hok. f_equal. lia.
    + lia.
    + lia.
Qed.

Lemma retry_from_exhausted (remaining : nat) :
  forall (attempt : Z) (w : World),
    (forall i, (i < S remaining)%nat ->
               exists e, outcomes (fnCalls w + i) = Throw e) ->
    retries - attempt = Z.of_nat (S remaining) ->
    exists e,
      outcomes (fnCalls w + remaining) = Throw e /\
      retry_from (mockFn outcomes) (S remaining) attempt retries delayMs w
      = (Throw (newError ("Max retries reached: " +:+ String_ e)),
         afterAttempts delayMs (S remaining) remaining w).
Proof.
  induction remaining as [|remaining IH]; intros attempt w Hfail Hrem.
  - destruct (Hfail 0%nat ltac:(lia)) as [e He].
    exists e. split; [exact He|].
    simpl. unfold tryCatch, mockFn. rewrite Nat.add_0_r in He. rewrite He.
    destruct (Z.leb_spec (retries - 1) attempt) as [_|Hgt]; [|lia].
    unfold throw. f_equal. apply World_eq; simpl; try reflexivity; lia.
  - destruct (Hfail 0%nat ltac:(lia)) as [e0 He0].
    rewrite Nat.add_0_r in He0.
    destruct (IH (attempt + 1)
                (set_elapsed (elapsed (set_fnCalls (S (fnCalls w)) w)
                              + Z.max 0 delayMs)
                   (set_fnCalls (S (fnCalls w)) w))) as [e [He Hrun]].
    + intros i Hi. destruct (Hfail (S i) ltac:(lia)) as [e' He'].
      exists e'. rewrite <- He'. simpl. f_equal. lia.
    + lia.
    + exists e. split.
      * rewrite <- He. simpl. f_equal. lia.
      * change (retry_from (mockFn outcomes) (S (S remaining)) attempt retries delayMs w)
          with (tryCatch (mockFn outcomes) (fun error =>
                  if retries - 1 <=? attempt
                  then throw (newError ("Max retries reached: " +:+ String_ error))
                  else delay delayMs ;;;
                       retry_from (mockFn outcomes) (S remaining) (attempt + 1)
                         retries delayMs) w).
        unfold tryCatch at 1. unfold mockFn at 1. rewrite He0.
        destruct (Z.leb_spec (retries - 1) attempt) as [Hle|_]; [lia|].
        unfold bind, delay. rewrite Hrun.
        f_equal. apply World_eq; simpl; try reflexivity; lia.
Qed.

End Retry.

(** C4 (amended): an operation that fails exactly [k] times and then
    succeeds, retried with [n >= 1] attempts. When [k < n] the retry
    succeeds after exactly [k + 1] invocations (and [k] delays); when
    [k >= n] it fails after exactly [n] invocations (and [n - 1] delays)
    with the message "Max retries reached: " followed by [String] of the
    error of the last invocation; and it succeeds with [k + 1] invocations
    if and only if [k < n]. *)
Theorem retry_fails_then_succeeds {A} (outcomes : nat -> Res A) (k : nat)
    (v : A) (n d : Z) (w : World) :
  fnCalls w = 0%nat ->
  (forall i, (i < k)%nat -> exists e, outcomes i = Throw e) ->
  outcomes k = Ok v ->
  1 <= n ->
  (Z.of_nat k < n ->
   retry (mockFn outcomes) n d w = (Ok v, afterAttempts d (S k) k w)) /\
  (n <= Z.of_nat k ->
   exists e,
     outcomes (Z.to_nat n - 1)%nat = Throw e /\
     retry (mockFn outcomes) n d w
     = (Throw (newError ("Max retries reached: " +:+ String_ e)),
        afterAttempts d (Z.to_nat n) (Z.to_nat n - 1) w)) /\
  ((exists v' w', retry (mockFn outcomes) n d w = (Ok v', w')
                  /\ fnCalls w' = S k)
   <-> Z.of_nat k < n).
Proof.
  intros Hfresh Hfail Hok Hn.
  assert (Hsucc : Z.of_nat k < n ->
            retry (mockFn outcomes) n d w = (Ok v, afterAttempts d (S k) k w)).
  { intros Hlt. unfold retry.
    apply retry_from_success; rewrite ?Hfresh; simpl; auto; lia. }
  assert (Hexh : n <= Z.of_nat k ->
            exists e,
              outcomes (Z.to_nat n - 1)%nat = Throw e /\
              retry (mockFn outcomes) n d w
              = (Throw (newError ("Max retries reached: " +:+ String_ e)),
                 afterAttempts d (Z.to_nat n) (Z.to_nat n - 1) w)).
  { intros Hge. unfold retry.
    destruct (Z.to_nat n) as [|m] eqn:Hm; [lia|].
    destruct (retry_from_exhausted outcomes n d m 0 w) as [e [He Hrun]].
    - intros i Hi. rewrite Hfresh. simpl. apply Hfail. lia.
    - lia.
    - exists e. rewrite Hfresh in He. simpl in He.
      replace (S m - 1)%nat with m by lia. auto. }
  split; [exact Hsucc|]. split; [exact Hexh|].
  split.
  - intros [v' [w' [Hrun _]]].
    destruct (Z.lt_ge_cases (Z.of_nat k) n) as [Hlt|Hge]; [exact Hlt|].
    destruct (Hexh Hge) as [e [_ Hthrow]]. congruence.
  - intros Hlt. exists v, (afterAttempts d (S k) k w).
    split; [auto|]. simpl. lia.
Qed.

Lemma retry_fails_then_succeeds_witness :
  retry (mockFn failOnceThenSucceed) 2 100 emptyWorld
  = (Ok "Success", afterAttempts 100 2 1 emptyWorld).
Proof.
  refine (proj1 (retry_fails_then_succeeds failOnceThenSucceed 1 "Success"
                   2 100 emptyWorld _ _ _ _) _).
  - reflexivity.
  - intros i Hi. exists (newError "First attempt failed").
    destruct i as [|i]; [reflexivity|lia].
  - reflexivity.
  - lia.
  - simpl. lia.
Defined.

(** The other test of the repository: an operation that always fails, two
    attempts. *)
Example retry_always_fails :
  retry (mockFn (fun _ : nat => @Throw string (newError "Always fails")))
    2 100 emptyWorld
  = (Throw (newError "Max retries reached: Error: Always fails"),
     afterAttempts 100 2 1 emptyWorld).
Proof. reflexivity. Qed.

(** C4 as stated fails with no attempt allowed: an operation that would
    succeed at once ([k = 0]) retried with [n = 0] is never invoked, and the
    failure wraps no error of the operation. *)
Lemma retry_zero_attempts_wraps_nothing :
  retry (mockFn (fun _ : nat => Ok 7)) 0 1000 emptyWorld
  = (Throw (newError "Max retries reached without success."), emptyWorld)
  /\ ~ (exists e w',
          retry (mockFn (fun _ : nat => Ok 7)) 0 1000 emptyWorld
          = (Throw (newError ("Max retries reached: " +:+ String_ e)), w')).
Proof.
  split; [reflexivity|].
  intros [e [w' H]]. vm_compute in H. discriminate H.
Qed.

(** C10: with [retries <= 0] the loop body never runs: whatever the
    operation, the world is left as it was (a mock's call count included)
    and the failure is "Max retries reached without success.". *)
Theorem retry_no_attempts {A} (fn : M A) (retries delayMs : Z) (w : World) :
  retries <= 0 ->
  retry fn retries delayMs w
  = (Throw (newError "Max retries reached without success."), w)
  /\ (forall outcomes : nat -> Res A,
        fnCalls (snd (retry (mockFn outcomes) retries delayMs w)) = fnCalls w).
Proof.
  intros Hle. unfold retry.
  replace (Z.to_nat retries) with 0%nat by lia.
  split; [reflexivity|]. intros outcomes. reflexivity.
Qed.

Lemma retry_no_attempts_witness :
  retry (mockFn failOnceThenSucceed) 0 1000 emptyWorld
  = (Throw (newError "Max retries reached without success."), emptyWorld).
Proof.
  refine (proj1 (retry_no_attempts (mockFn failOnceThenSucceed) 0 1000
                   emptyWorld _)).
  lia.
Defined.

(** ** The point cache *)

Lemma getCachedData_hit (cache : CacheRef) (key : Z) (fetchFunc : M Z)
    (v : Z) (w : World) :
  readCache cache w !! key = Some v ->
  getCachedData cache key fetchFunc w = (Ok v, w).
Proof.
  intros Hhit. unfold getCachedData, retry. simpl.
  unfold tryCatch. rewrite Hhit. reflexivity.
Qed.

Lemma getCachedData_miss (cache : CacheRef) (key : Z) (fetchFunc : M Z)
    (v : Z) (w w1 : World) :
  readCache cache w !! key = None ->
  fetchFunc w = (Ok v, w1) ->
  getCachedData cache key fetchFunc w
  = (Ok v, writeCache cache (<[key := v]> (readCache cache w1)) w1).
Proof.
  intros Hmiss Hfetch. unfold getCachedData, retry. simpl.
  unfold tryCatch. rewrite Hmiss. unfold bind. rewrite Hfetch. reflexivity.
Qed.

Lemma readCache_writeCache (c c' : CacheRef) (m : gmap Z Z) (w : World) :
  readCache c (writeCache c' m w) = if decide (c = c') then m else readCache c w.
Proof. destruct c, c'; reflexivity. Qed.

Lemma cachesGrow_refl (w : World) : cachesGrow w w.
Proof. intros c. reflexivity. Qed.

Lemma cachesGrow_trans (w1 w2 w3 : World) :
  cachesGrow w1 w2 -> cachesGrow w2 w3 -> cachesGrow w1 w3.
Proof. intros H12 H23 c. etransitivity; [apply H12 | apply H23]. Qed.

Create HintDb preserving.

Lemma preserving_ret {A} (v : A) : preserving (ret v).
Proof. intros w. apply cachesGrow_refl. Qed.

Lemma preserving_throw {A} (e : JsError) : preserving (@throw A e).
Proof. intros w. apply cachesGrow_refl. Qed.

Lemma preserving_bind {A B} (m : M A) (k : A -> M B) :
  preserving m -> (forall x, preserving (k x)) -> preserving (bind m k).
Proof.
  intros Hm Hk w. unfold bind. specialize (Hm w).
  destruct (m w) as [[x|e] w1]; simpl in *; [|exact Hm].
  eapply cachesGrow_trans; [exact Hm | apply Hk].
Qed.

Lemma preserving_tryCatch {A} (m : M A) (h : JsError -> M A) :
  preserving m -> (forall e, preserving (h e)) -> preserving (tryCatch m h).
Proof.
  intros Hm Hh w. unfold tryCatch. specialize (Hm w).
  destruct (m w) as [[x|e] w1]; simpl in *; [exact Hm|].
  eapply cachesGrow_trans; [exact Hm | apply Hh].
Qed.

Lemma preserving_delay (ms : Z) : preserving (delay ms).
Proof. intros w c. destruct c; reflexivity. Qed.

Lemma preserving_rpc {A} (rq : Request) (answer : nat -> Res A) :
  preserving (rpc rq answer).
Proof. intros w c. destruct c; reflexivity. Qed.

Lemma preserving_mockFn {A} (outcomes : nat -> Res A) :
  preserving (mockFn outcomes).
Proof. intros w c. destruct c; reflexivity. Qed.

#[local] Hint Resolve preserving_ret preserving_throw preserving_bind
  preserving_tryCatch preserving_delay preserving_rpc preserving_mockFn
  : preserving.

Lemma preserving_retry_from {A} (fn : M A) (remaining : nat)
    (attempt retries delayMs : Z) :
  preserving fn -> preserving (retry_from fn remaining attempt retries delayMs).
Proof.
  intros Hfn. revert attempt.
  induction remaining as [|remaining IH]; intros attempt; simpl.
  - auto with preserving.
  - apply preserving_tryCatch; [exact Hfn|]. intros e.
    destruct (retries - 1 <=? attempt); auto with preserving.
Qed.

Lemma preserving_getCachedData (cache : CacheRef) (key : Z) (fetchFunc : M Z) :
  preserving fetchFunc -> preserving (getCachedData cache key fetchFunc).
Proof.
  intros Hf. unfold getCachedData, retry.
  apply preserving_retry_from. intros w.
  destruct (readCache cache w !! key) as [v|] eqn:Hkey.
  - apply cachesGrow_refl.
  - unfold bind. specialize (Hf w).
    destruct (fetchFunc w) as [[data|e] w1]; simpl in *; [|exact Hf].
    intros c. specialize (Hf c). rewrite readCache_writeCache.
    destruct (decide (c = cache)) as [->|_]; [|exact Hf].
    apply insert_subseteq_r; [exact Hkey | exact Hf].
Qed.

Lemma preserving_searchLoop (lookup : Z -> M Z) (timestamp : Z)
    (startBlock endBlock closestBlock closestTimeDifference : Z)
    (probed : list Z) :
  (forall i, preserving (lookup i)) ->
  preserving (searchLoop lookup timestamp startBlock endBlock closestBlock
                closestTimeDifference probed).
Proof.
  intros Hl w.
  funelim (searchLoop lookup timestamp startBlock endBlock closestBlock
             closestTimeDifference probed w).
  - pose proof (Hl ((startBlock + endBlock) / 2) w) as Hstep.
    destruct (lookup ((startBlock + endBlock) / 2) w) as [[t|e] w1];
      simpl in Hstep; [|exact Hstep].
    destruct (t =? timestamp); [exact Hstep|].
    destruct (t <? timestamp);
      (eapply cachesGrow_trans; [exact Hstep|]);
      match goal with
      | IH : Res Z -> _ |- cachesGrow _ (snd (searchLoop _ _ _ _ _ _ _ _)) =>
          apply (IH (Ok 0) w1 t Hl)
      end.
  - apply cachesGrow_refl.
Qed.

Section PreservingFetcher.

Variable net : Remote.

Lemma preserving_getSlotTime (slot : Z) : preserving (getSlotTime net slot).
Proof.
  unfold getSlotTime. apply preserving_bind; auto with preserving.
  intros [t|]; auto with preserving.
Qed.

Lemma preserving_getCachedSlotTime (slot : Z) :
  preserving (getCachedSlotTime net slot).
Proof. apply preserving_getCachedData, preserving_getSlotTime. Qed.

Lemma preserving_getBlockTimestamp (blockNumber : Z) :
  preserving (getBlockTimestamp net blockNumber).
Proof.
  apply preserving_getCachedData, preserving_bind; auto with preserving.
  intros [t|]; auto with preserving.
Qed.

Lemma preserving_refineLoop (remaining : nat) :
  forall offset initialSlot targetTimestamp closestSlot closestTimeDifference,
    preserving (refineLoop net remaining offset initialSlot targetTimestamp
                  closestSlot closestTimeDifference).
Proof.
  induction remaining as [|remaining IH]; intros; simpl.
  - auto with preserving.
  - apply preserving_bind; [apply preserving_getCachedSlotTime|].
    intros forwardTime.
    apply preserving_bind; [apply preserving_getCachedSlotTime|].
    intros backwardTime.
    match goal with |- preserving (if ?b then _ else _) => destruct b end;
      auto with preserving.
Qed.

Lemma preserving_refineSlotSearchSolana (initialSlot targetTimestamp : Z) :
  preserving (refineSlotSearchSolana net initialSlot targetTimestamp).
Proof.
  apply preserving_bind; [apply preserving_getCachedSlotTime|].
  intros t. apply preserving_refineLoop.
Qed.

Lemma preserving_getEVMBlockByTimestamp (timestamp : Z) :
  preserving (getEVMBlockByTimestamp net timestamp).
Proof.
  unfold getEVMBlockByTimestamp, getEVMBlockByTimestamp_probes,
    getLatestBlockNumber.
  repeat (apply preserving_bind; [|intros ?]); auto with preserving.
  apply preserving_searchLoop, preserving_getBlockTimestamp.
Qed.

Lemma preserving_getSolanaBlockByTimestamp (timestamp : Z) :
  preserving (getSolanaBlockByTimestamp net timestamp).
Proof.
  unfold getSolanaBlockByTimestamp, getLatestSlot.
  apply preserving_bind; [auto with preserving|]. intros latestSlot.
  apply preserving_bind; [apply preserving_getCachedSlotTime|].
  intros genesisTimestamp.
  destruct (timestamp <=? genesisTimestamp); [auto with preserving|].
  apply preserving_bind;
    [apply preserving_searchLoop, preserving_getCachedSlotTime|].
  intros [[i|i] probed]; simpl; auto with preserving.
  apply preserving_refineSlotSearchSolana.
Qed.

Lemma preserving_getTimestampBySlot (slot : Z) :
  preserving (getTimestampBySlot net slot).
Proof.
  unfold getTimestampBySlot, getLatestSlot.
  apply preserving_bind; [auto with preserving|]. intros latestSlot.
  destruct ((slot <? 0) || (latestSlot <? slot)); [auto with preserving|].
  apply preserving_getCachedSlotTime.
Qed.

Lemma preserving_perform (op : Operation) : preserving (perform net op).
Proof.
  destruct op; simpl.
  - auto with preserving.
  - apply preserving_getBlockTimestamp.
  - unfold getLatestBlockNumber. auto with preserving.
  - apply preserving_getEVMBlockByTimestamp.
  - unfold getLatestSlot. auto with preserving.
  - apply preserving_getCachedSlotTime.
  - apply preserving_getSlotTime.
  - apply preserving_getSolanaBlockByTimestamp.
  - apply preserving_getBlockTimestamp.
  - apply preserving_getTimestampBySlot.
Qed.

Lemma cachesGrow_performAll (ops : list Operation) :
  forall w, cachesGrow w (performAll net ops w).
Proof.
  induction ops as [|op ops IH]; intros w; simpl.
  - apply cachesGrow_refl.
  - eapply cachesGrow_trans; [apply preserving_perform | apply IH].
Qed.

End PreservingFetcher.

Section CacheAccess.

Variable net : Remote.

Lemma getSlotTime_answered (slot t : Z) (w : World) :
  getBlockTime net (length (sent w)) slot = Ok (Some t) ->
  getSlotTime net slot w = (Ok t, set_sent (SolGetBlockTime slot :: sent w) w).
Proof.
  intros Hans. unfold getSlotTime, bind, rpc. rewrite Hans. reflexivity.
Qed.

Lemma lookup_hit (cache : CacheRef) (key v : Z) (w : World) :
  readCache cache w !! key = Some v ->
  perform net (lookupCall (cache, key)) w = (Ok v, w).
Proof.
  intros Hhit. destruct cache; simpl; apply getCachedData_hit, Hhit.
Qed.

Lemma lookup_miss (cache : CacheRef) (key : Z) (w : World) :
  answers net cache key ->
  readCache cache w !! key = None ->
  exists t,
    perform net (lookupCall (cache, key)) w
    = (Ok t, writeCache cache (<[key := t]> (readCache cache w))
               (set_sent (requestFor cache key :: sent w) w)).
Proof.
  intros Hans Hmiss. destruct (Hans (length (sent w))) as [t Ht].
  exists t. destruct cache; simpl in *.
  - unfold getCachedSlotTime.
    rewrite (getCachedData_miss SlotTimeCache key _ t w
               (set_sent (SolGetBlockTime key :: sent w) w));
      [reflexivity | exact Hmiss | apply getSlotTime_answered, Ht].
  - unfold getBlockTimestamp.
    rewrite (getCachedData_miss BlockTimestampCache key _ t w
               (set_sent (EthGetBlockByNumber key :: sent w) w));
      [reflexivity | exact Hmiss |].
    unfold bind, rpc. rewrite Ht. reflexivity.
Qed.

Lemma requestFor_inj (c c' : CacheRef) (k k' : Z) :
  requestFor c k = requestFor c' k' -> c = c' /\ k = k'.
Proof. destruct c, c'; simpl; intros H; inversion H; auto. Qed.

Lemma sent_writeCache (c : CacheRef) (m : gmap Z Z) (w : World) :
  sent (writeCache c m w) = sent w.
Proof. destruct c; reflexivity. Qed.

Lemma lookups_fetch_once (accesses : list (CacheRef * Z)) :
  forall w,
    (forall a, a ∈ accesses -> answers net (fst a) (snd a)) ->
    forall cache key,
      (fetches cache key (performAll net (map lookupCall accesses) w)
       <= fetches cache key w + 1)%nat /\
      (forall v, readCache cache w !! key = Some v ->
         fetches cache key (performAll net (map lookupCall accesses) w)
         = fetches cache key w) /\
      ((cache, key) ∈ accesses ->
       is_Some (readCache cache
                  (performAll net (map lookupCall accesses) w) !! key)).
Proof.
  induction accesses as [|[c k] accesses IH]; intros w Hans cache key.
  - simpl. split; [lia|]. split; [auto|]. intros Hin. inversion Hin.
  - assert (Hrest : forall a, a ∈ accesses -> answers net (fst a) (snd a))
      by (intros a Ha; apply Hans; right; exact Ha).
    cbn [map performAll].
    destruct (readCache c w !! k) as [v0|] eqn:Hck.
    + rewrite (lookup_hit c k v0 w Hck). cbn [snd].
      destruct (IH w Hrest cache key) as [Hle [Hkeep Hpop]].
      split; [exact Hle|]. split; [exact Hkeep|].
      intros Hin. apply elem_of_cons in Hin as [Heq|Hin]; [|auto].
      inversion Heq; subst.
      pose proof (cachesGrow_performAll net (map lookupCall accesses) w c) as Hg.
      exists v0. eapply lookup_weaken; [exact Hck | exact Hg].
    + destruct (lookup_miss c k w (Hans (c, k) ltac:(left)) Hck) as [t Hrun].
      rewrite Hrun. cbn [snd].
      set (w1 := writeCache c (<[k := t]> (readCache c w))
                   (set_sent (requestFor c k :: sent w) w)).
      destruct (IH w1 Hrest cache key) as [Hle [Hkeep Hpop]].
      assert (Hsent : sent w1 = requestFor c k :: sent w)
        by (unfold w1; rewrite sent_writeCache; reflexivity).
      destruct (decide (requestFor c k = requestFor cache key)) as [Heq|Hne].
      * apply requestFor_inj in Heq as [-> ->].
        assert (Hnow : readCache cache w1 !! key = Some t).
        { unfold w1. rewrite readCache_writeCache.
          destruct (decide (cache = cache)); [|congruence].
          apply lookup_insert_eq. }
        assert (Hone : fetches cache key w1 = S (fetches cache key w)).
        { unfold fetches. rewrite Hsent. apply count_occ_cons_eq. reflexivity. }
        split; [rewrite (Hkeep t Hnow), Hone; lia|].
        split; [intros v Hv; congruence|].
        intros _.
        pose proof (cachesGrow_performAll net (map lookupCall accesses) w1 cache) as Hg.
        exists t. eapply lookup_weaken; [exact Hnow | exact Hg].
      * assert (Hsame : fetches cache key w1 = fetches cache key w).
        { unfold fetches. rewrite Hsent. apply count_occ_cons_neq. exact Hne. }
        rewrite <- Hsame.
        split; [exact Hle|]. split.
        -- intros v Hv. apply (Hkeep v).
           unfold w1. rewrite readCache_writeCache.
           destruct (decide (cache = c)) as [->|_]; [|destruct c, cache; exact Hv].
           rewrite lookup_insert_ne; [exact Hv|]. intros ->. congruence.
        -- intros Hin. apply elem_of_cons in Hin as [Heq|Hin]; [|auto].
           inversion Heq; subst. congruence.
Qed.

End CacheAccess.

(** C6: over any sequence of cached point lookups whose fetches succeed,
    the timestamp of a key is fetched at most once, and not at all when the
    key is cached already; the keys looked up are cached afterwards; a
    lookup of a cached key returns the cached value and changes nothing,
    whatever its fetch function is; and no call of the module changes or
    removes an entry of a cache. *)
Theorem cache_fetches_at_most_once (net : Remote)
    (accesses : list (CacheRef * Z)) (w : World) :
  (forall a, a ∈ accesses -> answers net (fst a) (snd a)) ->
  let w' := performAll net (map lookupCall accesses) w in
  (forall cache key, (fetches cache key w' <= fetches cache key w + 1)%nat) /\
  (forall cache key v,
     readCache cache w !! key = Some v -> fetches cache key w' = fetches cache key w) /\
  (forall cache key, (cache, key) ∈ accesses -> is_Some (readCache cache w' !! key)) /\
  (forall cache key v (fetchFunc : M Z) w0,
     readCache cache w0 !! key = Some v ->
     getCachedData cache key fetchFunc w0 = (Ok v, w0)) /\
  (forall cache key v (ops : list Operation) w0,
     readCache cache w0 !! key = Some v ->
     readCache cache (performAll net ops w0) !! key = Some v).
Proof.
  intros Hans w'. unfold w'.
  split; [intros cache key;
          apply (lookups_fetch_once net accesses w Hans cache key)|].
  split; [intros cache key v Hv;
          apply (proj1 (proj2 (lookups_fetch_once net accesses w Hans cache key)) v Hv)|].
  split; [intros cache key Hin;
          apply (proj2 (proj2 (lookups_fetch_once net accesses w Hans cache key)) Hin)|].
  split; [intros; apply getCachedData_hit; assumption|].
  intros cache key v ops w0 Hv.
  eapply lookup_weaken; [exact Hv | apply cachesGrow_performAll].
Qed.

Lemma cache_fetches_at_most_once_witness :
  Nat.le
    (fetches SlotTimeCache 5
       (performAll exampleNet
          (map lookupCall [(SlotTimeCache, 5); (BlockTimestampCache, 3);
                           (SlotTimeCache, 5)]) emptyWorld))
    (fetches SlotTimeCache 5 emptyWorld + 1)%nat.
Proof.
  refine (proj1 (cache_fetches_at_most_once exampleNet
                   [(SlotTimeCache, 5); (BlockTimestampCache, 3);
                    (SlotTimeCache, 5)] emptyWorld _) SlotTimeCache 5).
  intros a Ha n.
  repeat (apply elem_of_cons in Ha as [->|Ha]);
    [eexists; reflexivity ..|inversion Ha].
Defined.

(** ** The range check of the Solana index -> timestamp path *)

(** C5: when the latest slot is [latestSlot] and [slot] is negative or
    beyond it, [getTimestampBySlot] throws "Slot <slot> is out of range.
    Latest slot is <latestSlot>." and has sent the one request for the
    latest slot: no slot time was looked up, and no cache was touched. *)
Theorem getTimestampBySlot_out_of_range (net : Remote)
    (slot latestSlot : Z) (w : World) :
  getSlot net (length (sent w)) = Ok latestSlot ->
  slot < 0 \/ latestSlot < slot ->
  getTimestampBySlot net slot w
  = (Throw (newError ("Slot " +:+ pretty slot
                      +:+ " is out of range. Latest slot is "
                      +:+ pretty latestSlot +:+ ".")),
     set_sent (SolGetSlot :: sent w) w).
Proof.
  intros Hlatest Hrange.
  unfold getTimestampBySlot, getLatestSlot, bind, rpc. rewrite Hlatest.
  replace ((slot <? 0) || (latestSlot <? slot)) with true; [reflexivity|].
  symmetry. apply orb_true_iff.
  destruct Hrange; [left|right]; apply Z.ltb_lt; assumption.
Qed.

Lemma getTimestampBySlot_out_of_range_witness :
  getTimestampBySlot exampleNet 200000 emptyWorld
  = (Throw (newError "Slot 200000 is out of range. Latest slot is 100000."),
     set_sent [SolGetSlot] emptyWorld).
Proof.
  refine (getTimestampBySlot_out_of_range exampleNet 200000 100000
            emptyWorld _ _).
  - reflexivity.
  - right. lia.
Defined.

(** ** The genesis shortcut of the Solana timestamp -> index path *)

(** C7: when the latest slot and the time of slot 0 are obtained and the
    target is not after the time of slot 0, [getSolanaBlockByTimestamp]
    returns 0 in the world those two calls left: nothing else was run. *)
Theorem getSolanaBlockByTimestamp_genesis (net : Remote)
    (timestamp latestSlot genesisTimestamp : Z) (w w0 w1 : World) :
  getLatestSlot net w = (Ok latestSlot, w0) ->
  getCachedSlotTime net 0 w0 = (Ok genesisTimestamp, w1) ->
  timestamp <= genesisTimestamp ->
  getSolanaBlockByTimestamp net timestamp w = (Ok 0, w1).
Proof.
  intros Hlatest Hgenesis Hle.
  unfold getSolanaBlockByTimestamp, bind. rewrite Hlatest, Hgenesis.
  destruct (Z.leb_spec timestamp genesisTimestamp); [reflexivity|lia].
Qed.

Lemma getSolanaBlockByTimestamp_genesis_witness :
  getSolanaBlockByTimestamp exampleNet 4000 emptyWorld
  = (Ok 0, set_slotTimeCache {[ 0 := 5000 ]}
             (set_sent [SolGetBlockTime 0; SolGetSlot] emptyWorld)).
Proof.
  refine (getSolanaBlockByTimestamp_genesis exampleNet 4000 100000 5000
            emptyWorld (set_sent [SolGetSlot] emptyWorld) _ _ _ _).
  - reflexivity.
  - vm_compute. reflexivity.
  - lia.
Defined.

(** ** The binary search *)

Lemma searchLoop_step (lookup : Z -> M Z) (timestamp : Z)
    (startBlock endBlock closestBlock closestTimeDifference : Z)
    (probed : list Z) (w : World) :
  searchLoop lookup timestamp startBlock endBlock closestBlock
    closestTimeDifference probed w
  = if decide (startBlock <= endBlock)
    then
      let middleBlock := (startBlock + endBlock) / 2 in
      match lookup middleBlock w with
      | (Throw e, w') => (Throw e, w')
      | (Ok middleBlockTime, w') =>
          let timeDifference := Z.abs (middleBlockTime - timestamp) in
          let closer := timeDifference <? closestTimeDifference in
          if middleBlockTime =? timestamp
          then (Ok (Found middleBlock, probed ++ [middleBlock]), w')
          else if middleBlockTime <? timestamp
          then searchLoop lookup timestamp (middleBlock + 1) endBlock
                 (if closer then middleBlock else closestBlock)
                 (if closer then timeDifference else closestTimeDifference)
                 (probed ++ [middleBlock]) w'
          else searchLoop lookup timestamp startBlock (middleBlock - 1)
                 (if closer then middleBlock else closestBlock)
                 (if closer then timeDifference else closestTimeDifference)
                 (probed ++ [middleBlock]) w'
      end
    else (Ok (Closest closestBlock, probed), w).
Proof.
  funelim (searchLoop lookup timestamp startBlock endBlock closestBlock
             closestTimeDifference probed w);
    destruct (decide (startBlock <= endBlock)); try lia; reflexivity.
Qed.

(** The middle of a window that is not empty is inside it. *)
Lemma middle_in_window (s e : Z) : s <= e -> s <= (s + e) / 2 <= e.
Proof.
  intros Hle.
  split; [apply Z.div_le_lower_bound | apply Z.div_le_upper_bound]; lia.
Qed.

Lemma candidate_le (ts : Z -> Z) (target : Z) (probed : list Z) (c d : Z) :
  candidate ts target probed c d ->
  forall p, p ∈ probed -> d <= Z.abs (ts p - target).
Proof.
  intros [[-> [_ Hall]]|[_ [before [after [-> [Hd [Hb Ha]]]]]]] p Hp.
  - apply Hall, Hp.
  - apply elem_of_app in Hp as [Hp|Hp]; [apply Z.lt_le_incl, Hb, Hp|].
    apply elem_of_cons in Hp as [->|Hp]; [lia|apply Ha, Hp].
Qed.

(** One lookup more: the update [if (timeDifference < closestTimeDifference)]
    keeps the candidate the first best. *)
Lemma candidate_step (ts : Z -> Z) (target : Z) (probed : list Z)
    (c d m : Z) :
  candidate ts target probed c d ->
  candidate ts target (probed ++ [m])
    (if Z.abs (ts m - target) <? d then m else c)
    (if Z.abs (ts m - target) <? d then Z.abs (ts m - target) else d).
Proof.
  intros Hc. pose proof (candidate_le _ _ _ _ _ Hc) as Hle.
  destruct (Z.ltb_spec (Z.abs (ts m - target)) d) as [Hlt|Hge].
  - right. split.
    + destruct Hc as [[-> _]|[Hd _]]; lia.
    + exists probed, []. split; [reflexivity|]. split; [reflexivity|].
      split; [|intros p Hp; inversion Hp].
      intros p Hp. specialize (Hle p Hp). lia.
  - destruct Hc as [[-> [-> Hall]]|[Hd [before [after [-> [Hdc [Hb Ha]]]]]]].
    + left. split; [reflexivity|]. split; [reflexivity|].
      intros p Hp. apply elem_of_app in Hp as [Hp|Hp]; [apply Hall, Hp|].
      apply list_elem_of_singleton in Hp as ->. exact Hge.
    + right. split; [exact Hd|].
      exists before, (after ++ [m]).
      split; [rewrite <- app_assoc; reflexivity|].
      split; [exact Hdc|]. split; [exact Hb|].
      intros p Hp. apply elem_of_app in Hp as [Hp|Hp]; [apply Ha, Hp|].
      apply list_elem_of_singleton in Hp as ->. exact Hge.
Qed.

(** Half a window that is not empty has a bound one less. *)
Lemma probeBound_half (width width' : Z) :
  1 <= width -> 2 * width' <= width ->
  (1 + probeBound width' <= probeBound width)%nat.
Proof.
  intros Hw Hhalf. unfold probeBound.
  destruct (decide (width <= 0)) as [|_]; [lia|].
  pose proof (Z.log2_nonneg width) as Hnn.
  destruct (decide (width' <= 0)) as [|Hpos]; [lia|].
  pose proof (Z.log2_nonneg width').
  assert (Hlog : Z.log2 width' + 1 <= Z.log2 width).
  { pose proof (Z.log2_double width' ltac:(lia)) as Hdouble.
    pose proof (Z.log2_le_mono (2 * width') width Hhalf). lia. }
  lia.
Qed.

(** Whatever the lookups answer, a search over a window of [width] indices
    that returns has made at most [probeBound width] lookups: each one
    leaves at most half of the window. *)
Lemma searchLoop_probe_count (lookup : Z -> M Z) (timestamp : Z) (n : nat) :
  forall (s e c d : Z) (probed : list Z) (w : World)
         (x : SearchExit) (probed' : list Z) (w' : World),
    (Z.to_nat (e - s + 1) <= n)%nat ->
    searchLoop lookup timestamp s e c d probed w = (Ok (x, probed'), w') ->
    (length probed' <= length probed + probeBound (e - s + 1))%nat.
Proof.
  induction n as [|n IH]; intros s e c d probed w x probed' w' Hn;
    rewrite searchLoop_step;
    destruct (decide (s <= e)) as [Hle|Hgt]; try lia;
    try (intros Hrun; inversion Hrun; subst; lia).
  cbv zeta.
  pose proof (middle_in_window s e Hle) as Hmid.
  pose proof (Z.mul_div_le (s + e) 2 ltac:(lia)) as Hlow.
  pose proof (Z.mul_succ_div_gt (s + e) 2 ltac:(lia)) as Hhigh.
  set (m := (s + e) / 2) in *.
  destruct (lookup m w) as [[t|err] w1]; [|discriminate].
  destruct (t =? timestamp).
  - intros Hrun. inversion Hrun; subst. rewrite length_app. simpl.
    pose proof (probeBound_half (e - s + 1) 0 ltac:(lia) ltac:(lia)) as Hb.
    unfold probeBound at 1 in Hb. simpl in Hb. lia.
  - destruct (t <? timestamp); intros Hrun;
      apply IH in Hrun; try lia;
      rewrite length_app in Hrun; simpl in Hrun.
    + pose proof (probeBound_half (e - s + 1) (e - (m + 1) + 1)
                    ltac:(lia) ltac:(lia)). lia.
    + pose proof (probeBound_half (e - s + 1) (m - 1 - s + 1)
                    ltac:(lia) ltac:(lia)). lia.
Qed.

Section SearchSpec.

Variable lookup : Z -> M Z.
Variables N target : Z.
Variable ts : Z -> Z.
Variable Inv : World -> Prop.

Hypothesis lookup_ok :
  forall i w, 0 <= i <= N -> Inv w ->
              exists w', lookup i w = (Ok (ts i), w') /\ Inv w'.
Hypothesis ts_monotone : forall i j, 0 <= i <= j -> j <= N -> ts i <= ts j.

(** When the window is empty, the two indices next to it were looked up, and
    every other index is at least as far from the target as one of them. *)
Lemma search_exit_post (s e c d : Z) (probed : list Z) :
  e < s -> 0 <= s -> e <= N -> s <= e + 1 ->
  (forall i, 0 <= i < s -> ts i < target) ->
  (forall i, e < i <= N -> target < ts i) ->
  (0 < s -> s - 1 ∈ probed) ->
  (e < N -> e + 1 ∈ probed) ->
  (forall p, p ∈ probed -> 0 <= p <= N /\ ts p <> target) ->
  candidate ts target probed c d ->
  searchPost N ts target (Closest c) probed.
Proof.
  intros Hempty Hs He Hse Hleft Hright Hprev Hnext Hprobed Hcand.
  split; [intros p Hp; apply Hprobed, Hp|].
  split; [intros p Hp; apply Hprobed, Hp|].
  exists d. split; [exact Hcand|].
  intros i Hi. pose proof (candidate_le _ _ _ _ _ Hcand) as Hle.
  destruct (Z.lt_ge_cases i s) as [Hlt|Hge].
  - assert (Hin : s - 1 ∈ probed) by (apply Hprev; lia).
    specialize (Hle _ Hin).
    pose proof (Hleft (s - 1) ltac:(lia)).
    pose proof (Hleft i ltac:(lia)).
    pose proof (ts_monotone i (s - 1) ltac:(lia) ltac:(lia)).
    lia.
  - assert (Hin : e + 1 ∈ probed) by (apply Hnext; lia).
    specialize (Hle _ Hin).
    pose proof (Hright (e + 1) ltac:(lia)).
    pose proof (Hright i ltac:(lia)).
    pose proof (ts_monotone (e + 1) i ltac:(lia) ltac:(lia)).
    lia.
Qed.

Lemma searchLoop_spec (n : nat) :
  forall (s e c d : Z) (probed : list Z) (w : World),
    (Z.to_nat (e - s + 1) <= n)%nat ->
    Inv w -> 0 <= s -> e <= N -> s <= e + 1 ->
    (forall i, 0 <= i < s -> ts i < target) ->
    (forall i, e < i <= N -> target < ts i) ->
    (0 < s -> s - 1 ∈ probed) ->
    (e < N -> e + 1 ∈ probed) ->
    (forall p, p ∈ probed -> 0 <= p <= N /\ ts p <> target) ->
    candidate ts target probed c d ->
    exists x probed' w',
      searchLoop lookup target s e c d probed w = (Ok (x, probed'), w') /\
      Inv w' /\ searchPost N ts target x probed'.
Proof.
  induction n as [|n IH];
    intros s e c d probed w Hn Hinv Hs He Hse Hleft Hright Hprev Hnext
      Hprobed Hcand;
    rewrite searchLoop_step;
    destruct (decide (s <= e)) as [Hle|Hgt]; try lia.
  - exists (Closest c), probed, w. split; [reflexivity|]. split; [exact Hinv|].
    apply (search_exit_post s e c d); auto; lia.
  - pose proof (middle_in_window s e Hle) as Hmid.
    set (m := (s + e) / 2) in *.
    destruct (lookup_ok m w ltac:(lia) Hinv) as [w1 [Hrun Hinv1]].
    cbv zeta. rewrite Hrun.
    assert (Hprobed1 : forall p, p ∈ probed ++ [m] -> 0 <= p <= N).
    { intros p Hp. apply elem_of_app in Hp as [Hp|Hp]; [apply Hprobed, Hp|].
      apply list_elem_of_singleton in Hp as ->. lia. }
    destruct (Z.eqb_spec (ts m) target) as [Heq|Hne].
    + exists (Found m), (probed ++ [m]), w1.
      split; [reflexivity|]. split; [exact Hinv1|].
      split; [exact Hprobed1|]. exists probed.
      split; [reflexivity|]. split; [exact Heq|].
      intros p Hp. apply Hprobed, Hp.
    + assert (Hprobed2 : forall p, p ∈ probed ++ [m] ->
                                   0 <= p <= N /\ ts p <> target).
      { intros p Hp. split; [apply Hprobed1, Hp|].
        apply elem_of_app in Hp as [Hp|Hp]; [apply Hprobed, Hp|].
        apply list_elem_of_singleton in Hp as ->. exact Hne. }
      pose proof (candidate_step ts target probed c d m Hcand) as Hcand1.
      destruct (Z.ltb_spec (ts m) target) as [Hlt|Hge].
      * apply IH; auto; try lia.
        -- intros i Hi.
           pose proof (ts_monotone i m ltac:(lia) ltac:(lia)). lia.
        -- intros _. replace (m + 1 - 1) with m by lia.
           apply elem_of_app. right. apply list_elem_of_singleton. reflexivity.
        -- intros HeN. apply elem_of_app. left. apply Hnext, HeN.
      * apply IH; auto; try lia.
        -- intros i Hi.
           pose proof (ts_monotone m i ltac:(lia) ltac:(lia)). lia.
        -- intros Hpos. apply elem_of_app. left. apply Hprev, Hpos.
        -- intros _. replace (m - 1 + 1) with m by lia.
           apply elem_of_app. right. apply list_elem_of_singleton. reflexivity.
  - exists (Closest c), probed, w. split; [reflexivity|]. split; [exact Hinv|].
    apply (search_exit_post s e c d); auto; lia.
Qed.

End SearchSpec.

Section EvmSearch.

Variable net : Remote.
Variable N : Z.
Variable ts : Z -> Z.

Hypothesis chain : evmChain net N ts.

Lemma getBlockTimestamp_reliable (i : Z) (w : World) :
  0 <= i <= N -> blockCacheAgrees N ts w ->
  exists w', getBlockTimestamp net i w = (Ok (ts i), w')
             /\ blockCacheAgrees N ts w'.
Proof.
  intros Hi Hagree. destruct chain as [_ Hblock].
  destruct (blockTimestampCache w !! i) as [t|] eqn:Hcache.
  - exists w. split; [|exact Hagree].
    rewrite (Hagree i t Hi Hcache) in Hcache.
    apply getCachedData_hit, Hcache.
  - exists (set_blockTimestampCache (<[i := ts i]> (blockTimestampCache w))
              (set_sent (EthGetBlockByNumber i :: sent w) w)).
    split.
    + unfold getBlockTimestamp.
      rewrite (getCachedData_miss BlockTimestampCache i _ (ts i) w
                 (set_sent (EthGetBlockByNumber i :: sent w) w));
        [reflexivity | exact Hcache |].
      unfold bind, rpc. rewrite (Hblock _ i Hi). reflexivity.
    + intros j t Hj. simpl. rewrite lookup_insert.
      destruct (decide (i = j)) as [->|_]; [congruence|apply Hagree, Hj].
Qed.

Lemma evm_search_run (target : Z) (w : World) :
  0 <= N -> blockCacheAgrees N ts w ->
  (forall i j, 0 <= i <= j -> j <= N -> ts i <= ts j) ->
  exists x probed w',
    getEVMBlockByTimestamp_probes net target w = (Ok (exitIndex x, probed), w')
    /\ getEVMBlockByTimestamp net target w = (Ok (exitIndex x), w')
    /\ searchPost N ts target x probed
    /\ (length probed <= probeBound (N + 1))%nat.
Proof.
  intros HN Hagree Hmono.
  destruct (searchLoop_spec (getBlockTimestamp net) N target ts
              (blockCacheAgrees N ts) getBlockTimestamp_reliable Hmono
              (Z.to_nat (N + 1)) 0 N 0 MAX_SAFE_INTEGER []
              (set_sent (EthBlockNumber :: sent w) w))
    as [x [probed [w' [Hloop [_ Hpost]]]]];
    try lia; try (intros; lia); try exact Hagree.
  - intros p Hp. inversion Hp.
  - left. split; [reflexivity|]. split; [reflexivity|].
    intros p Hp. inversion Hp.
  - exists x, probed, w'.
    assert (Hrun : getEVMBlockByTimestamp_probes net target w
                   = (Ok (exitIndex x, probed), w')).
    { unfold getEVMBlockByTimestamp_probes, getLatestBlockNumber, rpc.
      unfold bind at 1. rewrite (proj1 chain).
      unfold bind. rewrite Hloop. reflexivity. }
    split; [exact Hrun|].
    split; [unfold getEVMBlockByTimestamp, bind; rewrite Hrun; reflexivity|].
    split; [exact Hpost|].
    apply (searchLoop_probe_count _ _ (Z.to_nat (N + 1))) in Hloop; [|lia].
    simpl in Hloop. replace (N - 0 + 1) with (N + 1) in Hloop by lia.
    exact Hloop.
Qed.

End EvmSearch.

(** Epoch seconds, not negative and below [MAX_SAFE_INTEGER], are less than
    [MAX_SAFE_INTEGER] apart: on such timestamps and targets the initial
    [closestTimeDifference] is beyond every difference the search meets. *)
Lemma epoch_seconds_below_sentinel (t target : Z) :
  0 <= t < MAX_SAFE_INTEGER -> 0 <= target < MAX_SAFE_INTEGER ->
  Z.abs (t - target) < MAX_SAFE_INTEGER.
Proof. unfold MAX_SAFE_INTEGER. lia. Qed.

(** C1: over blocks [0..N] with strictly increasing timestamps and for a
    target less than [MAX_SAFE_INTEGER] away from some block, as every target
    in epoch seconds is, [getEVMBlockByTimestamp] returns a block [r] of
    [0..N] than which no block is strictly closer to the target; [r] is the
    first block probed that is that close (the blocks probed before it are
    strictly farther); and a probed block stamped with the target itself is
    returned at once: it is the result and the last block probed. *)
Theorem getEVMBlockByTimestamp_closest (net : Remote) (N : Z) (ts : Z -> Z)
    (target : Z) (w : World) :
  0 <= N -> evmChain net N ts -> blockCacheAgrees N ts w ->
  (forall i j, 0 <= i < j -> j <= N -> ts i < ts j) ->
  (exists i, 0 <= i <= N /\ Z.abs (ts i - target) < MAX_SAFE_INTEGER) ->
  exists r probed w',
    getEVMBlockByTimestamp_probes net target w = (Ok (r, probed), w') /\
    getEVMBlockByTimestamp net target w = (Ok r, w') /\
    0 <= r <= N /\
    (forall i, 0 <= i <= N ->
               Z.abs (ts r - target) <= Z.abs (ts i - target)) /\
    (exists before after,
       probed = before ++ r :: after /\
       forall p, p ∈ before ->
                 Z.abs (ts r - target) < Z.abs (ts p - target)) /\
    (forall p, p ∈ probed -> ts p = target -> p = r /\ last probed = Some p).
Proof.
  intros HN Hchain Hagree Hstrict [i0 [Hi0 Hnear]].
  destruct (evm_search_run net N ts Hchain target w HN Hagree)
    as [x [probed [w' [Hrun [Hres [[Hrange Hpost] _]]]]]].
  { intros i j Hij HjN. destruct (decide (i = j)) as [->|Hne]; [lia|].
    apply Z.lt_le_incl, Hstrict; lia. }
  exists (exitIndex x), probed, w'.
  split; [exact Hrun|]. split; [exact Hres|].
  destruct x as [m|c]; simpl.
  - destruct Hpost as [before [-> [Hm Hbefore]]].
    assert (Hzero : Z.abs (ts m - target) = 0) by lia.
    split; [apply Hrange, elem_of_app; right; apply list_elem_of_singleton;
            reflexivity|].
    split; [intros i _; lia|].
    split.
    + exists before, []. split; [reflexivity|].
      intros p Hp. specialize (Hbefore p Hp). lia.
    + intros p Hp Hpt. apply elem_of_app in Hp as [Hp|Hp].
      * exfalso. apply (Hbefore p Hp), Hpt.
      * apply list_elem_of_singleton in Hp as ->.
        split; [reflexivity|apply last_snoc].
  - destruct Hpost as [Hnohit [d [Hcand Hbest]]].
    destruct Hcand as [[-> _]|[_ [before [after [-> [Hd [Hb _]]]]]]].
    + specialize (Hbest i0 Hi0). lia.
    + split; [apply Hrange, elem_of_app; right; left|].
      split; [intros i Hi; rewrite Hd; apply Hbest, Hi|].
      split.
      * exists before, after. split; [reflexivity|].
        intros p Hp. rewrite Hd. apply Hb, Hp.
      * intros p Hp Hpt. exfalso. apply (Hnohit p Hp), Hpt.
Qed.

Lemma exampleNet_chain : evmChain exampleNet 10 exampleTs.
Proof.
  split; [reflexivity|]. intros n i Hi. simpl.
  destruct (decide (0 <= i <= 10)); [reflexivity|lia].
Qed.

Lemma twoBlocks_chain : evmChain twoBlocks 1 twoBlocksTs.
Proof.
  split; [reflexivity|]. intros n i Hi. simpl.
  destruct (decide (0 <= i <= 1)); [reflexivity|lia].
Qed.

Lemma emptyWorld_agrees (N : Z) (ts : Z -> Z) : blockCacheAgrees N ts emptyWorld.
Proof. intros i t _ H. simpl in H. rewrite lookup_empty in H. discriminate. Qed.

Lemma getEVMBlockByTimestamp_closest_witness :
  exists r probed w',
    getEVMBlockByTimestamp_probes exampleNet 1042 emptyWorld
    = (Ok (r, probed), w') /\
    getEVMBlockByTimestamp exampleNet 1042 emptyWorld = (Ok r, w') /\
    0 <= r <= 10 /\
    (forall i, 0 <= i <= 10 ->
               Z.abs (exampleTs r - 1042) <= Z.abs (exampleTs i - 1042)) /\
    (exists before after,
       probed = before ++ r :: after /\
       forall p, p ∈ before ->
                 Z.abs (exampleTs r - 1042) < Z.abs (exampleTs p - 1042)) /\
    (forall p, p ∈ probed -> exampleTs p = 1042 ->
               p = r /\ last probed = Some p).
Proof.
  refine (getEVMBlockByTimestamp_closest exampleNet 10 exampleTs 1042
            emptyWorld _ exampleNet_chain (emptyWorld_agrees 10 exampleTs)
            _ _).
  - lia.
  - unfold exampleTs. intros i j Hij Hj. lia.
  - exists 4. unfold exampleTs, MAX_SAFE_INTEGER. lia.
Defined.

(** The range of the sentinel ends where epoch seconds have long ended: with
    every block [MAX_SAFE_INTEGER] or more away from the target no probe
    replaces the initial candidate, block 0. *)
Example getEVMBlockByTimestamp_far_target :
  evmChain twoBlocks 1 twoBlocksTs /\
  (forall i j, 0 <= i < j -> j <= 1 -> twoBlocksTs i < twoBlocksTs j) /\
  fst (getEVMBlockByTimestamp_probes twoBlocks 10000000000000000 emptyWorld)
  = Ok (0, [0; 1]) /\
  fst (getEVMBlockByTimestamp twoBlocks 10000000000000000 emptyWorld) = Ok 0 /\
  Z.abs (twoBlocksTs 1 - 10000000000000000)
  < Z.abs (twoBlocksTs 0 - 10000000000000000).
Proof.
  split; [exact twoBlocks_chain|].
  split; [unfold twoBlocksTs; intros; lia|].
  split; [vm_compute; reflexivity|].
  split; [vm_compute; reflexivity|].
  vm_compute. reflexivity.
Qed.

(** C9: over blocks [0..N] with strictly increasing timestamps, whatever the
    target, [getEVMBlockByTimestamp] returns a block of [0..N] after at most
    [log2 (N + 1) + 1] lookups, each in a window at most half as wide as the
    one before; a target before the first block gives block 0, and a target
    after the last block, less than [MAX_SAFE_INTEGER] after it as every
    target in epoch seconds is, gives block [N]. *)
Theorem getEVMBlockByTimestamp_terminates (net : Remote) (N : Z)
    (ts : Z -> Z) (target : Z) (w : World) :
  0 <= N -> evmChain net N ts -> blockCacheAgrees N ts w ->
  (forall i j, 0 <= i < j -> j <= N -> ts i < ts j) ->
  exists r probed w',
    getEVMBlockByTimestamp_probes net target w = (Ok (r, probed), w') /\
    getEVMBlockByTimestamp net target w = (Ok r, w') /\
    0 <= r <= N /\
    (length probed <= probeBound (N + 1))%nat /\
    (target < ts 0 -> r = 0) /\
    (ts N < target -> target - ts N < MAX_SAFE_INTEGER -> r = N).
Proof.
  intros HN Hchain Hagree Hstrict.
  assert (Hmono : forall i j, 0 <= i <= j -> j <= N -> ts i <= ts j).
  { intros i j Hij HjN. destruct (decide (i = j)) as [->|Hne]; [lia|].
    apply Z.lt_le_incl, Hstrict; lia. }
  destruct (evm_search_run net N ts Hchain target w HN Hagree Hmono)
    as [x [probed [w' [Hrun [Hres [[Hrange Hpost] Hlen]]]]]].
  exists (exitIndex x), probed, w'.
  split; [exact Hrun|]. split; [exact Hres|].
  destruct x as [m|c]; simpl.
  - destruct Hpost as [before [-> [Hm _]]].
    assert (HmN : 0 <= m <= N)
      by (apply Hrange, elem_of_app; right; apply list_elem_of_singleton;
          reflexivity).
    pose proof (Hmono 0 m ltac:(lia) ltac:(lia)).
    pose proof (Hmono m N ltac:(lia) ltac:(lia)).
    split; [exact HmN|]. split; [exact Hlen|]. repeat split; intros; lia.
  - destruct Hpost as [_ [d [Hcand Hbest]]].
    destruct Hcand as [[-> [-> _]]|[Hd' [before [after [-> [Hd _]]]]]].
    + split; [lia|]. split; [exact Hlen|]. split; [reflexivity|].
      intros Hhigh Hnear. specialize (Hbest N ltac:(lia)). lia.
    + assert (HcN : 0 <= c <= N) by (apply Hrange, elem_of_app; right; left).
      pose proof (Hmono c N ltac:(lia) ltac:(lia)) as HcNle.
      split; [exact HcN|]. split; [exact Hlen|]. split.
      * intros Hlow. destruct (decide (c = 0)) as [->|Hne]; [reflexivity|].
        pose proof (Hstrict 0 c ltac:(lia) ltac:(lia)).
        specialize (Hbest 0 ltac:(lia)). lia.
      * intros Hhigh _. destruct (decide (c = N)) as [->|Hne]; [reflexivity|].
        pose proof (Hstrict c N ltac:(lia) ltac:(lia)).
        specialize (Hbest N ltac:(lia)). lia.
Qed.

Lemma getEVMBlockByTimestamp_terminates_witness :
  exists r probed w',
    getEVMBlockByTimestamp_probes exampleNet 5000 emptyWorld
    = (Ok (r, probed), w') /\
    getEVMBlockByTimestamp exampleNet 5000 emptyWorld = (Ok r, w') /\
    0 <= r <= 10 /\
    (length probed <= probeBound (10 + 1))%nat /\
    (5000 < exampleTs 0 -> r = 0) /\
    (exampleTs 10 < 5000 -> 5000 - exampleTs 10 < MAX_SAFE_INTEGER -> r = 10).
Proof.
  refine (getEVMBlockByTimestamp_terminates exampleNet 10 exampleTs 5000
            emptyWorld _ exampleNet_chain (emptyWorld_agrees 10 exampleTs) _).
  - lia.
  - unfold exampleTs. intros i j Hij Hj. lia.
Defined.

(** Beyond that range, for a target [MAX_SAFE_INTEGER] or more after the
    last block, the initial candidate is returned: block 0. *)
Example getEVMBlockByTimestamp_beyond_sentinel :
  evmChain exampleNet 10 exampleTs /\
  (forall i j, 0 <= i < j -> j <= 10 -> exampleTs i < exampleTs j) /\
  exampleTs 10 < 10000000000000000 /\
  fst (getEVMBlockByTimestamp exampleNet 10000000000000000 emptyWorld) = Ok 0.
Proof.
  split; [exact exampleNet_chain|].
  split; [unfold exampleTs; intros; lia|].
  split; vm_compute; reflexivity.
Qed.

(** ** The Solana refiner *)

Section Refine.

Variable net : Remote.
Variable slots : Z -> option Z.

Hypothesis source : slotSource net slots.

Lemma getCachedSlotTime_found (i t : Z) (w : World) :
  slotCacheAgrees slots w -> slots i = Some t ->
  exists w', getCachedSlotTime net i w = (Ok t, w')
             /\ slotCacheAgrees slots w'
             /\ (sent w' = sent w \/ sent w' = SolGetBlockTime i :: sent w).
Proof.
  intros Hagree Hslot.
  destruct (slotTimeCache w !! i) as [t0|] eqn:Hcache.
  - exists w. pose proof (Hagree i t0 Hcache) as Ht0.
    assert (t0 = t) as -> by congruence.
    split; [apply getCachedData_hit, Hcache|]. split; [exact Hagree|].
    left. reflexivity.
  - exists (set_slotTimeCache (<[i := t]> (slotTimeCache w))
              (set_sent (SolGetBlockTime i :: sent w) w)).
    split; [|split].
    + unfold getCachedSlotTime.
      rewrite (getCachedData_miss SlotTimeCache i _ t w
                 (set_sent (SolGetBlockTime i :: sent w) w));
        [reflexivity | exact Hcache |].
      apply getSlotTime_answered. rewrite source. f_equal. f_equal. exact Hslot.
    + intros j tj. simpl. rewrite lookup_insert.
      destruct (decide (i = j)) as [->|_]; [congruence|apply Hagree].
    + right. reflexivity.
Qed.

Lemma getSlotTime_missing (i : Z) (w : World) :
  slots i = None ->
  getSlotTime net i w
  = (Throw (newError ("No timestamp found for slot " +:+ pretty i)),
     set_sent (SolGetBlockTime i :: sent w) w).
Proof.
  intros Hslot. unfold getSlotTime, bind, rpc. rewrite source, Hslot.
  reflexivity.
Qed.

(** A slot without a time: the three attempts of [getCachedData] fail, and
    the lookup throws. *)
Lemma getCachedSlotTime_missing (i : Z) (w : World) :
  slotCacheAgrees slots w -> slots i = None ->
  exists w', getCachedSlotTime net i w = (Throw (slotNotFound i), w')
             /\ slotCacheAgrees slots w'
             /\ fetches SlotTimeCache i w' = (fetches SlotTimeCache i w + 3)%nat
             /\ elapsed w' = elapsed w + 2000.
Proof.
  intros Hagree Hslot.
  assert (Hcache : slotTimeCache w !! i = None).
  { destruct (slotTimeCache w !! i) as [t|] eqn:Hc; [|reflexivity].
    rewrite (Hagree i t Hc) in Hslot. discriminate. }
  eexists. split; [|split; [|split]].
  - unfold getCachedSlotTime, getCachedData, retry. simpl.
    unfold tryCatch at 1. simpl. rewrite Hcache.
    unfold bind at 1. rewrite (getSlotTime_missing i w Hslot).
    unfold bind at 1. unfold delay at 1.
    unfold tryCatch at 1. simpl. rewrite Hcache.
    unfold bind at 1. rewrite getSlotTime_missing by exact Hslot.
    unfold bind at 1. unfold delay at 1.
    unfold tryCatch at 1. simpl. rewrite Hcache.
    unfold bind at 1. rewrite getSlotTime_missing by exact Hslot.
    unfold throw. reflexivity.
  - exact Hagree.
  - unfold fetches.
    match goal with
    | |- count_occ _ ?l _ = _ =>
        change l with (SolGetBlockTime i :: SolGetBlockTime i
                         :: SolGetBlockTime i :: sent w)
    end.
    rewrite !count_occ_cons_eq by reflexivity. simpl requestFor. lia.
  - simpl. lia.
Qed.

End Refine.

Section RefineLoop.

Variable net : Remote.
Variable slots : Z -> option Z.
Variables initialSlot target : Z.

Hypothesis source : slotSource net slots.

Lemma sentWithin_refl (k : Z) (w : World) : sentWithin initialSlot k w w.
Proof. intros rq Hrq. left. exact Hrq. Qed.

Lemma sentWithin_trans (k1 k2 : Z) (w1 w2 w3 : World) :
  k1 <= k2 ->
  sentWithin initialSlot k1 w1 w2 -> sentWithin initialSlot k2 w2 w3 ->
  sentWithin initialSlot k2 w1 w3.
Proof.
  intros Hk H12 H23 rq Hrq.
  destruct (H23 rq Hrq) as [H2|H2]; [|right; exact H2].
  destruct (H12 rq H2) as [H1|[p [-> Hp]]]; [left; exact H1|].
  right. exists p. split; [reflexivity|lia].
Qed.

Lemma sentWithin_probe (k i : Z) (w w' : World) :
  initialSlot - k <= i <= initialSlot + k ->
  sent w' = sent w \/ sent w' = SolGetBlockTime i :: sent w ->
  sentWithin initialSlot k w w'.
Proof.
  intros Hi [Hsame|Hone] rq Hrq.
  - left. rewrite <- Hsame. exact Hrq.
  - rewrite Hone in Hrq. apply elem_of_cons in Hrq as [->|Hrq].
    + right. exists i. split; [reflexivity|exact Hi].
    + left. exact Hrq.
Qed.

(** One iteration of the loop whose two lookups succeed. *)
Lemma refineLoop_iteration (remaining : nat) (offset c d tf tb : Z)
    (w : World) :
  0 <= offset ->
  slotCacheAgrees slots w ->
  slots (initialSlot + offset) = Some tf ->
  slots (initialSlot - offset) = Some tb ->
  exists w',
    slotCacheAgrees slots w' /\ sentWithin initialSlot offset w w' /\
    refineLoop net (S remaining) offset initialSlot target c d w
    = (let best := keepCloser (initialSlot - offset) tb target
                     (keepCloser (initialSlot + offset) tf target (c, d)) in
       if snd best <=? TIME_DIFFERENCE_THRESHOLD then (Ok (fst best), w')
       else refineLoop net remaining (offset + 1) initialSlot target
              (fst best) (snd best) w').
Proof.
  intros Hoff Hagree Hf Hb.
  destruct (getCachedSlotTime_found net slots source _ tf w Hagree Hf)
    as [w1 [Hrun1 [Hagree1 Hsent1]]].
  destruct (getCachedSlotTime_found net slots source _ tb w1 Hagree1 Hb)
    as [w2 [Hrun2 [Hagree2 Hsent2]]].
  exists w2. split; [exact Hagree2|]. split.
  - apply (sentWithin_trans offset offset w w1 w2); [lia| |].
    + apply (sentWithin_probe offset (initialSlot + offset)); [lia|exact Hsent1].
    + apply (sentWithin_probe offset (initialSlot - offset)); [lia|exact Hsent2].
  - cbn [refineLoop]. unfold bind at 1. rewrite Hrun1.
    unfold bind at 1. rewrite Hrun2.
    unfold keepCloser. cbn [snd fst].
    destruct (Z.abs (tf - target) <? d); cbn [snd fst];
      destruct (Z.abs (tb - target) <? _); cbn [snd fst];
      destruct (_ <=? TIME_DIFFERENCE_THRESHOLD); reflexivity.
Qed.

(** An iteration whose forward lookup fails throws. *)
Lemma refineLoop_forward_missing (remaining : nat) (offset c d : Z)
    (w : World) :
  slotCacheAgrees slots w ->
  slots (initialSlot + offset) = None ->
  exists w',
    refineLoop net (S remaining) offset initialSlot target c d w
    = (Throw (slotNotFound (initialSlot + offset)), w').
Proof.
  intros Hagree Hf.
  destruct (getCachedSlotTime_missing net slots source _ w Hagree Hf)
    as [w1 [Hrun1 _]].
  exists w1. cbn [refineLoop]. unfold bind at 1. rewrite Hrun1. reflexivity.
Qed.

(** An iteration whose backward lookup fails throws. *)
Lemma refineLoop_backward_missing (remaining : nat) (offset c d tf : Z)
    (w : World) :
  slotCacheAgrees slots w ->
  slots (initialSlot + offset) = Some tf ->
  slots (initialSlot - offset) = None ->
  exists w',
    refineLoop net (S remaining) offset initialSlot target c d w
    = (Throw (slotNotFound (initialSlot - offset)), w').
Proof.
  intros Hagree Hf Hb.
  destruct (getCachedSlotTime_found net slots source _ tf w Hagree Hf)
    as [w1 [Hrun1 [Hagree1 _]]].
  destruct (getCachedSlotTime_missing net slots source _ w1 Hagree1 Hb)
    as [w2 [Hrun2 _]].
  exists w2. cbn [refineLoop]. unfold bind at 1. rewrite Hrun1.
  unfold bind at 1. rewrite Hrun2. reflexivity.
Qed.

End RefineLoop.

Lemma keepCloser_cases (slot time target c d : Z) :
  (keepCloser slot time target (c, d) = (c, d) /\ d <= Z.abs (time - target))
  \/ (keepCloser slot time target (c, d) = (slot, Z.abs (time - target))
      /\ Z.abs (time - target) < d).
Proof.
  unfold keepCloser. cbn [snd].
  destruct (Z.ltb_spec (Z.abs (time - target)) d); [right|left]; auto.
Qed.

Section RefineTotal.

Variable net : Remote.
Variable ts : Z -> Z.
Variables initialSlot target : Z.

Hypothesis source : slotSource net (fun i => Some (ts i)).

Local Abbreviation agrees := (slotCacheAgrees (fun i => Some (ts i))).
Local Abbreviation diff i := (Z.abs (ts i - target)).
Local Abbreviation within k i := (initialSlot - k <= i <= initialSlot + k).

Lemma refineLoop_spec (remaining : nat) :
  forall (offset c d : Z) (w : World),
    Z.of_nat remaining = MAX_SEARCH_OFFSET - offset + 1 ->
    1 <= offset <= MAX_SEARCH_OFFSET ->
    agrees w ->
    d = diff c -> within (offset - 1) c ->
    (forall i, within (offset - 1) i -> d <= diff i) ->
    (2 <= offset -> TIME_DIFFERENCE_THRESHOLD < d) ->
    exists r k w',
      refineLoop net remaining offset initialSlot target c d w = (Ok r, w')
      /\ agrees w' /\ offset <= k /\ refinePost ts initialSlot target r k
      /\ sentWithin initialSlot k w w'.
Proof.
  induction remaining as [|remaining IH];
    intros offset c d w Hrem Hoff Hagree Hd Hc Hbest Hfar; [lia|].
  destruct (refineLoop_iteration net (fun i => Some (ts i)) initialSlot target
              source remaining offset c d (ts (initialSlot + offset))
              (ts (initialSlot - offset)) w ltac:(lia) Hagree eq_refl eq_refl)
    as [w1 [Hagree1 [Hsent1 Hrun]]].
  rewrite Hrun. clear Hrun. cbv zeta.
  set (best := keepCloser (initialSlot - offset) (ts (initialSlot - offset))
                 target
                 (keepCloser (initialSlot + offset) (ts (initialSlot + offset))
                    target (c, d))).
  assert (Hinv : snd best = diff (fst best) /\ within offset (fst best) /\
                 forall i, within offset i -> snd best <= diff i).
  { unfold best.
    destruct (keepCloser_cases (initialSlot + offset)
                (ts (initialSlot + offset)) target c d) as [[-> Hf]|[-> Hf]];
      match goal with
      | |- context [keepCloser ?s ?t target (?c1, ?d1)] =>
          destruct (keepCloser_cases s t target c1 d1) as [[-> Hb]|[-> Hb]]
      end; cbn [fst snd];
      (split; [first [exact Hd | reflexivity]|]);
      (split; [lia|]);
      intros i Hi;
      destruct (decide (i = initialSlot + offset)) as [->|Hne1]; try lia;
      destruct (decide (i = initialSlot - offset)) as [->|Hne2]; try lia;
      specialize (Hbest i ltac:(lia)); lia. }
  destruct Hinv as [Hd1 [Hc1 Hbest1]].
  assert (Hfar1 : 2 <= offset ->
                  forall i, within (offset - 1) i ->
                            TIME_DIFFERENCE_THRESHOLD < diff i).
  { intros H2 i Hi. specialize (Hfar H2). specialize (Hbest i Hi). lia. }
  destruct (Z.leb_spec (snd best) TIME_DIFFERENCE_THRESHOLD) as [Hnear|Hstill].
  - exists (fst best), offset, w1.
    split; [reflexivity|]. split; [exact Hagree1|]. split; [lia|].
    split; [|exact Hsent1].
    split; [lia|]. split; [exact Hc1|].
    split; [intros i Hi; rewrite <- Hd1; apply Hbest1, Hi|].
    split; [left; rewrite <- Hd1; exact Hnear|exact Hfar1].
  - destruct remaining as [|remaining'].
    + exists (fst best), offset, w1.
      split; [reflexivity|]. split; [exact Hagree1|]. split; [lia|].
      split; [|exact Hsent1].
      split; [lia|]. split; [exact Hc1|].
      split; [intros i Hi; rewrite <- Hd1; apply Hbest1, Hi|].
      split; [right; lia|exact Hfar1].
    + assert (Hc2 : within (offset + 1 - 1) (fst best))
        by (replace (offset + 1 - 1) with offset by lia; exact Hc1).
      assert (Hbest2 : forall i, within (offset + 1 - 1) i -> snd best <= diff i)
        by (replace (offset + 1 - 1) with offset by lia; exact Hbest1).
      destruct (IH (offset + 1) (fst best) (snd best) w1 ltac:(lia) ltac:(lia)
                  Hagree1 Hd1 Hc2 Hbest2 ltac:(lia))
        as [r [k [w' [Hloop [Hagree' [Hk [Hpost Hsent']]]]]]].
      exists r, k, w'.
      split; [exact Hloop|]. split; [exact Hagree'|]. split; [lia|].
      split; [exact Hpost|].
      apply (sentWithin_trans initialSlot offset k w w1 w');
        [lia | exact Hsent1 | exact Hsent'].
Qed.

End RefineTotal.

(** C3: with a time for every slot, [refineSlotSearchSolana] returns a slot
    no farther from the target than the seed. It is the closest of the
    slots within [k] of the seed, where [k] (from 1 to 100) is the number of
    iterations run: the first after which the closest distance is at most
    60 seconds, or 100 when there is none; and no request is sent for a slot
    farther than [k] from the seed. *)
Theorem refineSlotSearchSolana_not_worse (net : Remote) (ts : Z -> Z)
    (initialSlot target : Z) (w : World) :
  slotSource net (fun i => Some (ts i)) ->
  slotCacheAgrees (fun i => Some (ts i)) w ->
  exists r k w',
    refineSlotSearchSolana net initialSlot target w = (Ok r, w') /\
    Z.abs (ts r - target) <= Z.abs (ts initialSlot - target) /\
    refinePost ts initialSlot target r k /\
    sentWithin initialSlot k w w'.
Proof.
  intros Hsource Hagree.
  destruct (getCachedSlotTime_found net (fun i => Some (ts i)) Hsource
              initialSlot (ts initialSlot) w Hagree eq_refl)
    as [w0 [Hseed [Hagree0 Hsent0]]].
  destruct (refineLoop_spec net ts initialSlot target Hsource
              (Z.to_nat MAX_SEARCH_OFFSET) 1 initialSlot
              (Z.abs (ts initialSlot - target)) w0)
    as [r [k [w' [Hloop [_ [Hk [Hpost Hsent]]]]]]];
    try (unfold MAX_SEARCH_OFFSET; lia); try exact Hagree0; try reflexivity.
  { intros i Hi. replace i with initialSlot by lia. lia. }
  exists r, k, w'. split; [|split; [|split]].
  - unfold refineSlotSearchSolana, bind. rewrite Hseed. exact Hloop.
  - destruct Hpost as [_ [_ [Hbest _]]]. apply Hbest. lia.
  - exact Hpost.
  - apply (sentWithin_trans initialSlot 0 k w w0 w'); [lia| |exact Hsent].
    apply (sentWithin_probe initialSlot 0 initialSlot); [lia|exact Hsent0].
Qed.

Lemma noisySlots_source : slotSource noisySlots (fun i => Some (noisyTs i)).
Proof. intros n i. reflexivity. Qed.

Lemma emptyWorld_slots_agree (slots : Z -> option Z) :
  slotCacheAgrees slots emptyWorld.
Proof. intros i t H. simpl in H. rewrite lookup_empty in H. discriminate. Qed.

Lemma refineSlotSearchSolana_not_worse_witness :
  exists r k w',
    refineSlotSearchSolana noisySlots 7 1000 emptyWorld = (Ok r, w') /\
    Z.abs (noisyTs r - 1000) <= Z.abs (noisyTs 7 - 1000) /\
    refinePost noisyTs 7 1000 r k /\
    sentWithin 7 k emptyWorld w'.
Proof.
  exact (refineSlotSearchSolana_not_worse noisySlots noisyTs 7 1000
           emptyWorld noisySlots_source
           (emptyWorld_slots_agree (fun i => Some (noisyTs i)))).
Defined.

Section RefineAbort.

Variable net : Remote.
Variable slots : Z -> option Z.
Variables initialSlot target k : Z.

Hypothesis source : slotSource net slots.

(** The loop reaches the iteration [k] when every earlier lookup succeeds
    beyond the threshold, and the first lookup of that iteration that fails
    ends the loop with its error. *)
Lemma refineLoop_probe_fails (n : nat) :
  forall (offset c d : Z) (w : World) (remaining : nat),
    Z.of_nat n = k - offset -> 1 <= offset ->
    k - offset + 1 <= Z.of_nat remaining ->
    slotCacheAgrees slots w ->
    (offset < k -> TIME_DIFFERENCE_THRESHOLD < d) ->
    (forall j, offset <= j < k ->
       exists tf tb,
         slots (initialSlot + j) = Some tf /\ slots (initialSlot - j) = Some tb /\
         TIME_DIFFERENCE_THRESHOLD < Z.abs (tf - target) /\
         TIME_DIFFERENCE_THRESHOLD < Z.abs (tb - target)) ->
    (slots (initialSlot + k) = None ->
     exists w', refineLoop net remaining offset initialSlot target c d w
                = (Throw (slotNotFound (initialSlot + k)), w')) /\
    (is_Some (slots (initialSlot + k)) -> slots (initialSlot - k) = None ->
     exists w', refineLoop net remaining offset initialSlot target c d w
                = (Throw (slotNotFound (initialSlot - k)), w')).
Proof.
  induction n as [|n IH];
    intros offset c d w remaining Hn Hoff Hrem Hagree Hd Hfound;
    (destruct remaining as [|remaining]; [lia|]).
  - assert (offset = k) as -> by lia. split.
    + intros Hf. apply refineLoop_forward_missing with (slots := slots); auto.
    + intros [tf Hf] Hb.
      apply refineLoop_backward_missing with (slots := slots) (tf := tf); auto.
  - destruct (Hfound offset ltac:(lia)) as [tf [tb [Hf [Hb [Hff Hbf]]]]].
    destruct (refineLoop_iteration net slots initialSlot target source
                remaining offset c d tf tb w ltac:(lia) Hagree Hf Hb)
      as [w1 [Hagree1 [_ Hrun]]].
    rewrite Hrun. clear Hrun. cbv zeta.
    set (best := keepCloser (initialSlot - offset) tb target
                   (keepCloser (initialSlot + offset) tf target (c, d))).
    assert (Hbest : TIME_DIFFERENCE_THRESHOLD < snd best).
    { specialize (Hd ltac:(lia)). unfold best.
      destruct (keepCloser_cases (initialSlot + offset) tf target c d)
        as [[-> _]|[-> _]];
        match goal with
        | |- context [keepCloser ?s ?t target (?c1, ?d1)] =>
            destruct (keepCloser_cases s t target c1 d1) as [[-> _]|[-> _]]
        end; cbn [snd]; lia. }
    destruct (Z.leb_spec (snd best) TIME_DIFFERENCE_THRESHOLD) as [Hnear|_];
      [lia|].
    apply IH; try lia; try exact Hagree1.
    intros j Hj. apply Hfound. lia.
Qed.

End RefineAbort.

(** C2 (amended): a lookup of the refiner that fails ends the refinement.
    When the slots within [k - 1] of the seed have a time (beyond the
    threshold, when [k >= 2], so that the loop goes on to the iteration
    [k]) and the slot [k] ahead of the seed has none, or has one and the
    slot [k] behind has none, [refineSlotSearchSolana] returns no slot: it
    throws the error of that lookup, "Max retries reached: Error: No
    timestamp found for slot <slot>". *)
Theorem refineSlotSearchSolana_probe_failure_aborts (net : Remote)
    (slots : Z -> option Z) (initialSlot target k : Z) (w : World) :
  slotSource net slots -> slotCacheAgrees slots w ->
  1 <= k <= MAX_SEARCH_OFFSET ->
  (forall i, initialSlot - (k - 1) <= i <= initialSlot + (k - 1) ->
     exists t, slots i = Some t /\
               (2 <= k -> TIME_DIFFERENCE_THRESHOLD < Z.abs (t - target))) ->
  (slots (initialSlot + k) = None ->
   exists w', refineSlotSearchSolana net initialSlot target w
              = (Throw (slotNotFound (initialSlot + k)), w')) /\
  (is_Some (slots (initialSlot + k)) -> slots (initialSlot - k) = None ->
   exists w', refineSlotSearchSolana net initialSlot target w
              = (Throw (slotNotFound (initialSlot - k)), w')).
Proof.
  intros Hsource Hagree Hk Hfound.
  destruct (Hfound initialSlot ltac:(lia)) as [t0 [Ht0 Hfar0]].
  destruct (getCachedSlotTime_found net slots Hsource initialSlot t0 w
              Hagree Ht0) as [w0 [Hseed [Hagree0 _]]].
  unfold refineSlotSearchSolana, bind. rewrite Hseed.
  apply (refineLoop_probe_fails net slots initialSlot target k Hsource
           (Z.to_nat (k - 1)));
    try (unfold MAX_SEARCH_OFFSET in *; lia); try exact Hagree0.
  intros j Hj.
  destruct (Hfound (initialSlot + j) ltac:(lia)) as [tf [Hf Hff]].
  destruct (Hfound (initialSlot - j) ltac:(lia)) as [tb [Hb Hbf]].
  exists tf, tb. split; [exact Hf|]. split; [exact Hb|].
  split; [apply Hff|apply Hbf]; lia.
Qed.

Lemma exampleNet_source : slotSource exampleNet exampleSlots.
Proof.
  intros n i. unfold exampleSlots. simpl.
  destruct (decide (0 <= i <= 100000)); reflexivity.
Qed.

Lemma refineSlotSearchSolana_probe_failure_aborts_witness :
  exists w', refineSlotSearchSolana exampleNet 100000 200000 emptyWorld
             = (Throw (slotNotFound (100000 + 1)), w').
Proof.
  refine (proj1 (refineSlotSearchSolana_probe_failure_aborts exampleNet
                   exampleSlots 100000 200000 1 emptyWorld
                   exampleNet_source (emptyWorld_slots_agree exampleSlots)
                   _ _) _).
  - unfold MAX_SEARCH_OFFSET. lia.
  - intros i Hi. exists (5000 + i). split; [|lia].
    unfold exampleSlots. destruct (decide (0 <= i <= 100000)); [reflexivity|lia].
  - reflexivity.
Defined.

(** C2 as stated fails at the head of the chain: from the latest slot as
    the seed, the first lookup ahead finds no slot, and the refinement, and
    with it the whole resolution of the timestamp, throws. *)
Lemma refineSlotSearchSolana_aborts_at_chain_head :
  exampleSlots 100001 = None /\
  fst (refineSlotSearchSolana exampleNet 100000 200000 emptyWorld)
  = Throw (newError
             "Max retries reached: Error: No timestamp found for slot 100001")
  /\ fst (getSolanaBlockByTimestamp exampleNet 200000 emptyWorld)
     = Throw (newError
                "Max retries reached: Error: No timestamp found for slot 100001").
Proof.
  split; [reflexivity|]. split; vm_compute; reflexivity.
Qed.

(** ** The request handler *)

Section ApiProps.

Variable net : Remote.
Variable Number : string -> Z.





End ApiProps.



(** The two items of [batchQuery]: slot 70 for the first, [null] for the
    second, whose refinement throws. *)
Example handleApiRoute_batch_results :
  fst (handleApiRoute exampleNet decimalNumber batchQuery emptyWorld)
  = Ok (JsonResults (<["5070" := Some 70]> (<["200000" := None]> ∅))).
Proof. vm_compute. reflexivity. Qed.

(** * Further properties *)

(** ** The retry executor, whatever the operation does *)

Lemma retry_from_returns {A} (fn : M A) (remaining : nat)
    (attempt retries delayMs : Z) (w w' : World) (v : A) :
  fn w = (Ok v, w') ->
  retry_from fn (S remaining) attempt retries delayMs w = (Ok v, w').
Proof. intros Hfn. cbn [retry_from]. unfold tryCatch. rewrite Hfn. reflexivity. Qed.

Lemma retry_from_again {A} (fn : M A) (remaining : nat)
    (attempt retries delayMs : Z) (w w' : World) (e : JsError) :
  fn w = (Throw e, w') -> attempt < retries - 1 ->
  retry_from fn (S remaining) attempt retries delayMs w
  = retry_from fn remaining (attempt + 1) retries delayMs
      (set_elapsed (elapsed w' + Z.max 0 delayMs) w').
Proof.
  intros Hfn Hlt. cbn [retry_from]. unfold tryCatch. rewrite Hfn.
  destruct (Z.leb_spec (retries - 1) attempt); [lia|]. reflexivity.
Qed.

Lemma retry_from_gives_up {A} (fn : M A) (remaining : nat)
    (attempt retries delayMs : Z) (w w' : World) (e : JsError) :
  fn w = (Throw e, w') -> retries - 1 <= attempt ->
  retry_from fn (S remaining) attempt retries delayMs w
  = (Throw (newError ("Max retries reached: " +:+ String_ e)), w').
Proof.
  intros Hfn Hle. cbn [retry_from]. unfold tryCatch. rewrite Hfn.
  destruct (Z.leb_spec (retries - 1) attempt); [reflexivity|lia].
Qed.

Lemma retry_from_budget {A} (outcomes : nat -> Res A) (retries delayMs : Z)
    (remaining : nat) :
  forall (attempt : Z) (w : World),
    retries - attempt = Z.of_nat (S remaining) ->
    exists calls : nat,
      (1 <= calls <= S remaining)%nat /\
      snd (retry_from (mockFn outcomes) (S remaining) attempt retries delayMs w)
      = afterAttempts delayMs calls (calls - 1) w /\
      (forall i, (i < calls - 1)%nat ->
                 exists e, outcomes (fnCalls w + i)%nat = Throw e) /\
      match fst (retry_from (mockFn outcomes) (S remaining) attempt retries
                   delayMs w) with
      | Ok v => outcomes (fnCalls w + calls - 1)%nat = Ok v
      | Throw e' =>
          calls = S remaining /\
          exists e, outcomes (fnCalls w + calls - 1)%nat = Throw e /\
                    e' = newError ("Max retries reached: " +:+ String_ e)
      end.
Proof.
  induction remaining as [|remaining IH]; intros attempt w Hrem.
  - exists 1%nat. split; [lia|].
    destruct (outcomes (fnCalls w)) as [v|e] eqn:Hout.
    + rewrite (retry_from_returns _ _ _ _ _ w (set_fnCalls (S (fnCalls w)) w) v)
        by (unfold mockFn; rewrite Hout; reflexivity).
      cbn [fst snd]. split; [apply World_eq; simpl; try reflexivity; lia|].
      split; [intros i Hi; lia|].
      rewrite <- Hout. f_equal. lia.
    + rewrite (retry_from_gives_up _ _ _ _ _ w (set_fnCalls (S (fnCalls w)) w) e)
        by (try (unfold mockFn; rewrite Hout; reflexivity); lia).
      cbn [fst snd]. split; [apply World_eq; simpl; try reflexivity; lia|].
      split; [intros i Hi; lia|]. split; [reflexivity|].
      exists e. split; [|reflexivity]. rewrite <- Hout. f_equal. lia.
  - destruct (outcomes (fnCalls w)) as [v|e] eqn:Hout.
    + exists 1%nat. split; [lia|].
      rewrite (retry_from_returns _ _ _ _ _ w (set_fnCalls (S (fnCalls w)) w) v)
        by (unfold mockFn; rewrite Hout; reflexivity).
      cbn [fst snd]. split; [apply World_eq; simpl; try reflexivity; lia|].
      split; [intros i Hi; lia|].
      rewrite <- Hout. f_equal. lia.
    + rewrite (retry_from_again _ _ _ _ _ w (set_fnCalls (S (fnCalls w)) w) e)
        by (try (unfold mockFn; rewrite Hout; reflexivity); lia).
      set (w1 := set_elapsed _ _).
      destruct (IH (attempt + 1) w1 ltac:(lia))
        as [calls [Hcalls [Hworld [Hfail Hres]]]].
      assert (Hfn1 : fnCalls w1 = S (fnCalls w)) by reflexivity.
      exists (S calls). split; [lia|]. split; [|split].
      * rewrite Hworld. subst w1. destruct calls as [|c]; [lia|].
        replace (S (S c) - 1)%nat with (S c) by lia.
        replace (S c - 1)%nat with c by lia.
        apply World_eq; simpl; try reflexivity; lia.
      * intros i Hi. destruct i as [|i].
        -- exists e. rewrite <- Hout. f_equal. lia.
        -- destruct (Hfail i ltac:(lia)) as [e' He']. exists e'.
           rewrite <- He', Hfn1. f_equal. lia.
      * rewrite Hfn1 in Hres.
        replace (fnCalls w + S calls - 1)%nat
          with (S (fnCalls w) + calls - 1)%nat by lia.
        destruct (fst (retry_from _ _ _ _ _ w1)) as [v|e'];
          [exact Hres|].
        destruct Hres as [-> Hres]. split; [reflexivity|exact Hres].
Qed.

(** X1: whatever an operation's outcomes are, [retry] with [n >= 1]
    attempts invokes it at least once and at most [n] times, waits exactly
    once between two invocations and never after the last; every invocation
    but the last failed; a returned value is the last outcome; and a failure
    means all [n] attempts were used, its message wrapping the last error. *)
Theorem retry_budget {A} (outcomes : nat -> Res A) (n d : Z) (w : World) :
  1 <= n ->
  exists calls : nat,
    (1 <= calls <= Z.to_nat n)%nat /\
    snd (retry (mockFn outcomes) n d w) = afterAttempts d calls (calls - 1) w /\
    (forall i, (i < calls - 1)%nat ->
               exists e, outcomes (fnCalls w + i)%nat = Throw e) /\
    match fst (retry (mockFn outcomes) n d w) with
    | Ok v => outcomes (fnCalls w + calls - 1)%nat = Ok v
    | Throw e' =>
        calls = Z.to_nat n /\
        exists e, outcomes (fnCalls w + calls - 1)%nat = Throw e /\
                  e' = newError ("Max retries reached: " +:+ String_ e)
    end.
Proof.
  intros Hn. unfold retry.
  destruct (Z.to_nat n) as [|m] eqn:Hm; [lia|].
  apply retry_from_budget. lia.
Qed.

Lemma retry_budget_witness :
  exists calls : nat,
    (1 <= calls <= Z.to_nat 2)%nat /\
    snd (retry (mockFn failOnceThenSucceed) 2 100 emptyWorld)
    = afterAttempts 100 calls (calls - 1) emptyWorld /\
    (forall i, (i < calls - 1)%nat ->
               exists e, failOnceThenSucceed (fnCalls emptyWorld + i)%nat
                         = Throw e) /\
    match fst (retry (mockFn failOnceThenSucceed) 2 100 emptyWorld) with
    | Ok v => failOnceThenSucceed (fnCalls emptyWorld + calls - 1)%nat = Ok v
    | Throw e' =>
        calls = Z.to_nat 2 /\
        exists e, failOnceThenSucceed (fnCalls emptyWorld + calls - 1)%nat
                  = Throw e /\
                  e' = newError ("Max retries reached: " +:+ String_ e)
    end.
Proof.
  refine (retry_budget failOnceThenSucceed 2 100 emptyWorld _). lia.
Defined.

(** ** A point lookup, whatever the remote answers *)

Lemma getCachedData_retry (cache : CacheRef) (key : Z) (fetchFunc : M Z) :
  getCachedData cache key fetchFunc
  = retry_from (cachedOrFetch cache key fetchFunc) 3 0 3 1000.
Proof. reflexivity. Qed.

Lemma lookupCall_pointFetch (net : Remote) (cache : CacheRef) (key : Z) :
  perform net (lookupCall (cache, key))
  = getCachedData cache key (pointFetch net cache key).
Proof. destruct cache; reflexivity. Qed.

Lemma pointFetch_run (net : Remote) (cache : CacheRef) (key : Z) (w : World) :
  pointFetch net cache key w
  = (fetched cache key (pointAnswer net cache (length (sent w)) key),
     set_sent (requestFor cache key :: sent w) w).
Proof.
  destruct cache; simpl; unfold getSlotTime, bind, rpc;
    match goal with |- context [match ?a with _ => _ end] =>
      destruct a as [[t|]|e] end; reflexivity.
Qed.

Lemma readCache_beforeTry (c cache : CacheRef) (key : Z) (i : nat) (w : World) :
  readCache c (beforeTry cache key i w) = readCache c w.
Proof. destruct c; reflexivity. Qed.

Lemma sent_beforeTry (cache : CacheRef) (key : Z) (i : nat) (w : World) :
  length (sent (beforeTry cache key i w)) = (length (sent w) + i)%nat.
Proof. simpl. rewrite length_app, repeat_length. lia. Qed.

(** The attempt [i] of a lookup of a key that is not cached. *)
Lemma attempt_run (net : Remote) (cache : CacheRef) (key : Z) (i : nat)
    (w : World) :
  readCache cache w !! key = None ->
  cachedOrFetch cache key (pointFetch net cache key) (beforeTry cache key i w)
  = match fetched cache key
            (pointAnswer net cache (length (sent w) + i) key) with
    | Ok t => (Ok t, afterTries cache key (S i) (Some t) w)
    | Throw e => (Throw e, afterTries cache key (S i) None w)
    end.
Proof.
  intros Hmiss. unfold cachedOrFetch.
  rewrite readCache_beforeTry, Hmiss. unfold bind.
  rewrite pointFetch_run, sent_beforeTry.
  destruct (fetched cache key _) as [t|e].
  - f_equal. unfold afterTries. replace (S i - 1)%nat with i by lia.
    destruct cache; reflexivity.
  - f_equal. unfold afterTries. replace (S i - 1)%nat with i by lia.
    reflexivity.
Qed.

Lemma delay_after_try (cache : CacheRef) (key : Z) (i : nat) (w : World) :
  set_elapsed (elapsed (afterTries cache key (S i) None w) + Z.max 0 1000)
    (afterTries cache key (S i) None w)
  = beforeTry cache key (S i) w.
Proof.
  unfold afterTries, beforeTry. replace (S i - 1)%nat with i by lia.
  apply World_eq; simpl; try reflexivity. lia.
Qed.

Lemma beforeTry_0 (cache : CacheRef) (key : Z) (w : World) :
  beforeTry cache key 0 w = w.
Proof. apply World_eq; simpl; try reflexivity. lia. Qed.

(** A lookup of a key that is not cached makes one, two or three attempts:
    it returns and stores the first timestamp it is answered, and when the
    three attempts fail it throws, wrapping the error of the third. *)
Lemma lookup_outcome (net : Remote) (cache : CacheRef) (key : Z) (w : World) :
  readCache cache w !! key = None ->
  exists tries : nat,
    (1 <= tries <= 3)%nat /\
    (forall i, (i < tries - 1)%nat ->
       exists e, fetched cache key
                   (pointAnswer net cache (length (sent w) + i) key)
                 = Throw e) /\
    match fetched cache key
            (pointAnswer net cache (length (sent w) + (tries - 1)) key) with
    | Ok t =>
        perform net (lookupCall (cache, key)) w
        = (Ok t, afterTries cache key tries (Some t) w)
    | Throw e =>
        tries = 3%nat /\
        perform net (lookupCall (cache, key)) w
        = (Throw (newError ("Max retries reached: " +:+ String_ e)),
           afterTries cache key 3 None w)
    end.
Proof.
  intros Hmiss.
  rewrite lookupCall_pointFetch, getCachedData_retry.
  pose proof (attempt_run net cache key 0 w Hmiss) as H0.
  pose proof (attempt_run net cache key 1 w Hmiss) as H1.
  pose proof (attempt_run net cache key 2 w Hmiss) as H2.
  rewrite beforeTry_0 in H0.
  destruct (fetched cache key (pointAnswer net cache (length (sent w) + 0) key))
    as [t0|e0] eqn:Ha0.
  { exists 1%nat. split; [lia|]. split; [intros i Hi; lia|].
    cbn [Nat.sub]. rewrite Ha0. apply retry_from_returns, H0. }
  rewrite (retry_from_again _ _ _ _ _ _ _ _ H0) by lia.
  rewrite delay_after_try.
  destruct (fetched cache key (pointAnswer net cache (length (sent w) + 1) key))
    as [t1|e1] eqn:Ha1.
  { exists 2%nat. split; [lia|]. split.
    - intros i Hi. assert (i = 0%nat) as -> by lia. eauto.
    - cbn [Nat.sub]. rewrite Ha1. apply retry_from_returns, H1. }
  rewrite (retry_from_again _ _ _ _ _ _ _ _ H1) by lia.
  rewrite delay_after_try.
  exists 3%nat. split; [lia|]. split.
  - intros i Hi. destruct i as [|[|i]]; [eauto|eauto|lia].
  - cbn [Nat.sub].
    destruct (fetched cache key (pointAnswer net cache (length (sent w) + 2) key))
      as [t2|e2] eqn:Ha2.
    + apply retry_from_returns, H2.
    + split; [reflexivity|]. apply retry_from_gives_up; [exact H2|lia].
Qed.

(** X2: a lookup of a key that is not cached absorbs up to two failed
    attempts (a failed request, or an answer without a timestamp): when the
    attempt [j <= 2] is the first to be answered a timestamp, the lookup
    returns it and stores it, after [j + 1] requests and [j] seconds of
    delay. *)
Theorem lookup_absorbs_failures (net : Remote) (cache : CacheRef)
    (key t : Z) (j : nat) (w : World) :
  readCache cache w !! key = None ->
  (j <= 2)%nat ->
  (forall i, (i < j)%nat ->
     exists e, fetched cache key
                 (pointAnswer net cache (length (sent w) + i) key) = Throw e) ->
  fetched cache key (pointAnswer net cache (length (sent w) + j) key) = Ok t ->
  perform net (lookupCall (cache, key)) w
  = (Ok t, afterTries cache key (S j) (Some t) w).
Proof.
  intros Hmiss Hj Hfail Hok.
  destruct (lookup_outcome net cache key w Hmiss)
    as [tries [Htries [Hbefore Hlast]]].
  assert (Heq : (tries - 1)%nat = j).
  { destruct (Nat.lt_trichotomy (tries - 1) j) as [Hlt|[Heq|Hgt]];
      [|exact Heq|].
    - destruct (Hfail _ Hlt) as [e He]. rewrite He in Hlast.
      destruct Hlast as [-> _]. simpl in Hlt. lia.
    - destruct (Hbefore _ Hgt) as [e He]. congruence. }
  rewrite Heq, Hok in Hlast. replace (S j) with tries by lia. exact Hlast.
Qed.

Lemma lookup_absorbs_failures_witness :
  perform flakyNet (lookupCall (SlotTimeCache, 7)) emptyWorld
  = (Ok 5007, afterTries SlotTimeCache 7 3 (Some 5007) emptyWorld).
Proof.
  refine (lookup_absorbs_failures flakyNet SlotTimeCache 7 5007 2 emptyWorld
            _ _ _ _).
  - reflexivity.
  - lia.
  - intros i Hi. exists (mkError "TypeError" "fetch failed").
    destruct i as [|[|i]]; [reflexivity|reflexivity|lia].
  - reflexivity.
Defined.

(** X3: when the three attempts of a lookup fail, the lookup throws "Max
    retries reached: " followed by [String] of the error of the third
    attempt, after three requests and two seconds of delay, and the caches
    are as they were: a failure is not remembered. *)
Theorem lookup_gives_up (net : Remote) (cache : CacheRef) (key : Z)
    (e : JsError) (w : World) :
  readCache cache w !! key = None ->
  (forall i, (i < 2)%nat ->
     exists e', fetched cache key
                  (pointAnswer net cache (length (sent w) + i) key) = Throw e') ->
  fetched cache key (pointAnswer net cache (length (sent w) + 2) key) = Throw e ->
  perform net (lookupCall (cache, key)) w
  = (Throw (newError ("Max retries reached: " +:+ String_ e)),
     afterTries cache key 3 None w)
  /\ forall c, readCache c (afterTries cache key 3 None w) = readCache c w.
Proof.
  intros Hmiss Hfail Hlast3.
  split; [|intros c; destruct c; reflexivity].
  destruct (lookup_outcome net cache key w Hmiss)
    as [tries [Htries [Hbefore Hlast]]].
  assert (tries = 3%nat) as ->.
  { destruct (decide (tries = 3%nat)) as [H3|Hne]; [exact H3|].
    destruct (Hfail (tries - 1)%nat ltac:(lia)) as [e' He'].
    rewrite He' in Hlast. destruct Hlast as [-> _]. reflexivity. }
  cbn [Nat.sub] in Hlast. rewrite Hlast3 in Hlast. apply Hlast.
Qed.

Lemma lookup_gives_up_witness :
  perform exampleNet (lookupCall (BlockTimestampCache, 11)) emptyWorld
  = (Throw (newError ("Max retries reached: " +:+
                      String_ (newError "No data found for block number: 11"))),
     afterTries BlockTimestampCache 11 3 None emptyWorld)
  /\ forall c, readCache c (afterTries BlockTimestampCache 11 3 None emptyWorld)
               = readCache c emptyWorld.
Proof.
  refine (lookup_gives_up exampleNet BlockTimestampCache 11
            (newError "No data found for block number: 11") emptyWorld _ _ _).
  - reflexivity.
  - intros i Hi. exists (newError "No data found for block number: 11").
    destruct i as [|[|i]]; [reflexivity|reflexivity|lia].
  - reflexivity.
Defined.

(** What a lookup costs, at most. *)
Lemma lookup_cost (net : Remote) (cache : CacheRef) (key : Z) (w : World) :
  exists tries : nat,
    (tries <= 3)%nat /\
    (tries = 0%nat <-> is_Some (readCache cache w !! key)) /\
    sent (snd (perform net (lookupCall (cache, key)) w))
    = repeat (requestFor cache key) tries ++ sent w /\
    elapsed (snd (perform net (lookupCall (cache, key)) w))
    = elapsed w + 1000 * Z.of_nat (tries - 1).
Proof.
  destruct (readCache cache w !! key) as [v|] eqn:Hkey.
  - exists 0%nat. rewrite (lookup_hit net cache key v w Hkey).
    split; [lia|]. split; [split; eauto|]. split; [reflexivity|simpl; lia].
  - destruct (lookup_outcome net cache key w Hkey)
      as [tries [Htries [_ Hlast]]].
    exists tries. split; [lia|]. split.
    { split; [lia|]. intros [v Hv]. discriminate. }
    destruct (fetched cache key _) as [t|e].
    + rewrite Hlast. split; destruct cache; reflexivity.
    + destruct Hlast as [-> Hlast]. rewrite Hlast. split; reflexivity.
Qed.

(** X4: whatever the remote answers, a cached point lookup
    ([getCachedSlotTime], [getBlockTimestamp]) sends at most three
    requests, all for its own key, and none when the key is cached; it
    waits one second between two requests and at no other time. *)
Theorem point_lookup_cost (net : Remote) (cache : CacheRef) (key : Z)
    (w : World) :
  exists tries : nat,
    (tries <= 3)%nat /\
    (tries = 0%nat <-> is_Some (readCache cache w !! key)) /\
    sent (snd (perform net (lookupCall (cache, key)) w))
    = repeat (requestFor cache key) tries ++ sent w /\
    elapsed (snd (perform net (lookupCall (cache, key)) w))
    = elapsed w + 1000 * Z.of_nat (tries - 1).
Proof. apply lookup_cost. Qed.

Example point_lookup_cost_flaky :
  sent (snd (perform flakyNet (lookupCall (BlockTimestampCache, 3)) emptyWorld))
  = repeat (EthGetBlockByNumber 3) 3
  /\ elapsed (snd (perform flakyNet (lookupCall (BlockTimestampCache, 3))
                     emptyWorld)) = 2000.
Proof. split; reflexivity. Qed.

(** ** The latest index *)

(** X5: the request for the latest index is sent once and not retried: when
    it fails, [getEVMBlockByTimestamp], [getSolanaBlockByTimestamp] and
    [getTimestampBySlot] throw its error as it is, not wrapped, after that
    one request and without any lookup. *)
Theorem latest_index_not_retried (net : Remote) (timestamp slot : Z)
    (e : JsError) (w : World) :
  (eth_blockNumber net (length (sent w)) = Throw e ->
   getEVMBlockByTimestamp net timestamp w
   = (Throw e, set_sent (EthBlockNumber :: sent w) w)) /\
  (getSlot net (length (sent w)) = Throw e ->
   getSolanaBlockByTimestamp net timestamp w
   = (Throw e, set_sent (SolGetSlot :: sent w) w) /\
   getTimestampBySlot net slot w
   = (Throw e, set_sent (SolGetSlot :: sent w) w)).
Proof.
  split.
  - intros Hfail.
    unfold getEVMBlockByTimestamp, getEVMBlockByTimestamp_probes,
      getLatestBlockNumber, bind, rpc.
    rewrite Hfail. reflexivity.
  - intros Hfail. split.
    + unfold getSolanaBlockByTimestamp, getLatestSlot, bind, rpc.
      rewrite Hfail. reflexivity.
    + unfold getTimestampBySlot, getLatestSlot, bind, rpc.
      rewrite Hfail. reflexivity.
Qed.

Lemma latest_index_not_retried_witness :
  getEVMBlockByTimestamp flakyNet 1042 emptyWorld
  = (Throw (mkError "TypeError" "fetch failed"),
     set_sent [EthBlockNumber] emptyWorld).
Proof.
  refine (proj1 (latest_index_not_retried flakyNet 1042 0
                   (mkError "TypeError" "fetch failed") emptyWorld) _).
  reflexivity.
Defined.

(** ** The binary search, whatever the lookups answer *)

(** The indices a search looks up are in its window, each once; and what it
    returns is one of them, or the closest block it started with. *)
Lemma searchLoop_probes_in_window (lookup : Z -> M Z) (timestamp : Z)
    (n : nat) :
  forall (s e c d : Z) (probed : list Z) (w : World)
         (x : SearchExit) (probed' : list Z) (w' : World),
    (Z.to_nat (e - s + 1) <= n)%nat ->
    searchLoop lookup timestamp s e c d probed w = (Ok (x, probed'), w') ->
    exists more,
      probed' = probed ++ more /\
      (forall p, p ∈ more -> s <= p <= e) /\
      NoDup more /\
      match x with
      | Found m => m ∈ more
      | Closest c' => c' = c \/ c' ∈ more
      end.
Proof.
  induction n as [|n IH]; intros s e c d probed w x probed' w' Hn;
    rewrite searchLoop_step;
    destruct (decide (s <= e)) as [Hle|Hgt]; try lia;
    try (intros Hrun; inversion Hrun; subst; exists [];
         rewrite app_nil_r; split; [reflexivity|];
         split; [intros p Hp; inversion Hp|];
         split; [constructor|left; reflexivity]).
  cbv zeta.
  pose proof (middle_in_window s e Hle) as Hmid.
  set (m := (s + e) / 2) in *.
  destruct (lookup m w) as [[t|err] w1]; [|discriminate].
  destruct (t =? timestamp).
  - intros Hrun. inversion Hrun; subst. exists [m].
    split; [reflexivity|].
    split; [intros p Hp; apply list_elem_of_singleton in Hp as ->; lia|].
    split; [apply NoDup_singleton|apply list_elem_of_singleton; reflexivity].
  - destruct (t <? timestamp); intros Hrun;
      apply IH in Hrun; try lia;
      destruct Hrun as [more [-> [Hin [Hnodup Hx]]]];
      exists (m :: more);
      (split; [rewrite <- app_assoc; reflexivity|]);
      (split; [intros p Hp; apply elem_of_cons in Hp as [->|Hp];
               [lia|specialize (Hin p Hp); lia]|]);
      (split; [apply NoDup_cons; split; [|exact Hnodup];
               intros Hm; specialize (Hin m Hm); lia|]);
      (destruct x as [i|i];
       [right; exact Hx|
        destruct Hx as [Hx|Hx]; [|right; right; exact Hx];
        destruct (Z.abs (t - timestamp) <? d);
        [right; rewrite Hx; left|left; exact Hx]]).
Qed.

(** X6: whatever the remote answers, when the latest block is [L] and
    [getEVMBlockByTimestamp] returns, it returns a block of [0..L] (0 when
    there is none): block 0, or one of the blocks it looked up; these are
    all in [0..L], no block is looked up twice, and at most
    [log2 (L + 1) + 1] are. *)
Theorem getEVMBlockByTimestamp_in_range (net : Remote) (timestamp L r : Z)
    (probed : list Z) (w w' : World) :
  eth_blockNumber net (length (sent w)) = Ok L ->
  getEVMBlockByTimestamp_probes net timestamp w = (Ok (r, probed), w') ->
  getEVMBlockByTimestamp net timestamp w = (Ok r, w') /\
  (r = 0 \/ r ∈ probed) /\
  0 <= r <= Z.max 0 L /\
  (forall p, p ∈ probed -> 0 <= p <= L) /\
  NoDup probed /\
  (length probed <= probeBound (L + 1))%nat.
Proof.
  intros Hlatest Hrun.
  split; [unfold getEVMBlockByTimestamp, bind; rewrite Hrun; reflexivity|].
  unfold getEVMBlockByTimestamp_probes, getLatestBlockNumber, rpc in Hrun.
  unfold bind at 1 in Hrun. rewrite Hlatest in Hrun.
  unfold bind in Hrun.
  destruct (searchLoop _ _ _ _ _ _ _ _) as [[[x probed0]|err] w0] eqn:Hloop;
    [|discriminate].
  inversion Hrun; subst. clear Hrun.
  assert (Hlen : (length probed <= length (@nil Z) + probeBound (L - 0 + 1))%nat)
    by (eapply (searchLoop_probe_count _ _ (Z.to_nat (L + 1)));
        [|exact Hloop]; lia).
  apply (searchLoop_probes_in_window _ _ (Z.to_nat (L + 1))) in Hloop; [|lia].
  destruct Hloop as [more [Hprobed [Hin [Hnodup Hx]]]].
  simpl in Hprobed. subst probed.
  assert (Hr : exitIndex x = 0 \/ exitIndex x ∈ more)
    by (destruct x; simpl; auto).
  split; [exact Hr|]. split.
  - destruct Hr as [->|Hr]; [lia|]. specialize (Hin _ Hr). lia.
  - split; [exact Hin|]. split; [exact Hnodup|].
    simpl in Hlen. replace (L - 0 + 1) with (L + 1) in Hlen by lia. exact Hlen.
Qed.

Lemma getEVMBlockByTimestamp_in_range_witness :
  getEVMBlockByTimestamp exampleNet 1042 emptyWorld
  = (Ok 4, snd (getEVMBlockByTimestamp_probes exampleNet 1042 emptyWorld)) /\
  (4 = 0 \/ 4 ∈ [5; 2; 3; 4]) /\
  0 <= 4 <= Z.max 0 10 /\
  (forall p, p ∈ [5; 2; 3; 4] -> 0 <= p <= 10) /\
  NoDup [5; 2; 3; 4] /\
  (length [5; 2; 3; 4] <= probeBound (10 + 1))%nat.
Proof.
  refine (getEVMBlockByTimestamp_in_range exampleNet 1042 10 4 [5; 2; 3; 4]
            emptyWorld _ _ _).
  - reflexivity.
  - vm_compute. reflexivity.
Defined.

(** ** What a resolution costs, whatever the remote answers *)

Lemma costs_ret {A} (v : A) : costs 0 0 (ret v).
Proof. intros w. simpl. lia. Qed.

Lemma costs_throw {A} (e : JsError) : costs 0 0 (@throw A e).
Proof. intros w. simpl. lia. Qed.

Lemma costs_weaken {A} (r r' s s' : nat) (m : M A) :
  (r <= r')%nat -> (s <= s')%nat -> costs r s m -> costs r' s' m.
Proof. intros Hr Hs Hm w. specialize (Hm w). lia. Qed.

Lemma costs_bind {A B} (r1 s1 r2 s2 : nat) (m : M A) (k : A -> M B) :
  costs r1 s1 m -> (forall x, costs r2 s2 (k x)) ->
  costs (r1 + r2) (s1 + s2) (bind m k).
Proof.
  intros Hm Hk w. unfold bind. specialize (Hm w).
  destruct (m w) as [[x|e] w1]; simpl in *; [|lia].
  specialize (Hk x w1). lia.
Qed.

Lemma costs_rpc {A} (rq : Request) (answer : nat -> Res A) :
  costs 1 0 (rpc rq answer).
Proof. intros w. simpl. lia. Qed.

Lemma costs_lookup (net : Remote) (cache : CacheRef) (key : Z) :
  costs 3 2 (perform net (lookupCall (cache, key))).
Proof.
  intros w.
  destruct (lookup_cost net cache key w) as [tries [Htries [_ [Hsent Helapsed]]]].
  rewrite Hsent, Helapsed, length_app, repeat_length. lia.
Qed.

Lemma costs_getCachedSlotTime (net : Remote) (slot : Z) :
  costs 3 2 (getCachedSlotTime net slot).
Proof. apply (costs_lookup net SlotTimeCache slot). Qed.

Lemma costs_getBlockTimestamp (net : Remote) (blockNumber : Z) :
  costs 3 2 (getBlockTimestamp net blockNumber).
Proof. apply (costs_lookup net BlockTimestampCache blockNumber). Qed.

Lemma costs_searchLoop (lookup : Z -> M Z) (timestamp : Z) (n : nat) :
  (forall i, costs 3 2 (lookup i)) ->
  forall (s e c d : Z) (probed : list Z),
    (Z.to_nat (e - s + 1) <= n)%nat ->
    costs (3 * probeBound (e - s + 1)) (2 * probeBound (e - s + 1))
      (searchLoop lookup timestamp s e c d probed).
Proof.
  intros Hlookup.
  induction n as [|n IH]; intros s e c d probed Hn w;
    rewrite searchLoop_step;
    destruct (decide (s <= e)) as [Hle|Hgt]; try lia;
    try (simpl; lia).
  cbv zeta.
  pose proof (middle_in_window s e Hle) as Hmid.
  pose proof (Z.mul_div_le (s + e) 2 ltac:(lia)) as Hlow.
  pose proof (Z.mul_succ_div_gt (s + e) 2 ltac:(lia)) as Hhigh.
  set (m := (s + e) / 2) in *.
  pose proof (Hlookup m w) as Hstep.
  pose proof (probeBound_half (e - s + 1) 0 ltac:(lia) ltac:(lia)) as Hone.
  unfold probeBound at 1 in Hone. simpl in Hone.
  destruct (lookup m w) as [[t|err] w1]; simpl in Hstep; [|simpl; lia].
  destruct (t =? timestamp); [simpl; lia|].
  destruct (t <? timestamp).
  - pose proof (IH (m + 1) e
                  (if Z.abs (t - timestamp) <? d then m else c)
                  (if Z.abs (t - timestamp) <? d
                   then Z.abs (t - timestamp) else d)
                  (probed ++ [m]) ltac:(lia) w1) as Hrest.
    pose proof (probeBound_half (e - s + 1) (e - (m + 1) + 1)
                  ltac:(lia) ltac:(lia)).
    lia.
  - pose proof (IH s (m - 1)
                  (if Z.abs (t - timestamp) <? d then m else c)
                  (if Z.abs (t - timestamp) <? d
                   then Z.abs (t - timestamp) else d)
                  (probed ++ [m]) ltac:(lia) w1) as Hrest.
    pose proof (probeBound_half (e - s + 1) (m - 1 - s + 1)
                  ltac:(lia) ltac:(lia)).
    lia.
Qed.

Lemma costs_refineLoop (net : Remote) (remaining : nat) :
  forall offset initialSlot targetTimestamp closestSlot closestTimeDifference,
    costs (6 * remaining) (4 * remaining)
      (refineLoop net remaining offset initialSlot targetTimestamp
         closestSlot closestTimeDifference).
Proof.
  induction remaining as [|remaining IH]; intros; cbn [refineLoop].
  - apply costs_ret.
  - apply (costs_weaken (3 + (3 + 6 * remaining)) _ (2 + (2 + 4 * remaining)));
      [lia|lia|].
    apply costs_bind; [apply costs_getCachedSlotTime|]. intros forwardTime.
    apply costs_bind; [apply costs_getCachedSlotTime|]. intros backwardTime.
    match goal with |- costs _ _ (if ?b then _ else _) => destruct b end;
      [|apply IH].
    apply (costs_weaken 0 _ 0); [lia|lia|apply costs_ret].
Qed.

(** X7: whatever the remote answers, and whether it returns or throws,
    [getEVMBlockByTimestamp] sends at most [1 + 3 * (log2 (L + 1) + 1)]
    requests and waits at most [2 * (log2 (L + 1) + 1)] seconds, [L] being
    the latest block it was told. *)
Theorem getEVMBlockByTimestamp_cost (net : Remote) (timestamp L : Z)
    (w : World) :
  eth_blockNumber net (length (sent w)) = Ok L ->
  (length (sent (snd (getEVMBlockByTimestamp net timestamp w)))
   <= length (sent w) + 1 + 3 * probeBound (L + 1))%nat /\
  elapsed w <= elapsed (snd (getEVMBlockByTimestamp net timestamp w))
  <= elapsed w + 1000 * Z.of_nat (2 * probeBound (L + 1)).
Proof.
  intros Hlatest.
  assert (Hsnd : snd (getEVMBlockByTimestamp net timestamp w)
                 = snd (searchLoop (getBlockTimestamp net) timestamp 0 L 0
                          MAX_SAFE_INTEGER []
                          (set_sent (EthBlockNumber :: sent w) w))).
  { unfold getEVMBlockByTimestamp, getEVMBlockByTimestamp_probes,
      getLatestBlockNumber, bind, rpc.
    rewrite Hlatest.
    destruct (searchLoop _ _ _ _ _ _ _ _) as [[x|err] w1]; reflexivity. }
  rewrite Hsnd.
  pose proof (costs_searchLoop (getBlockTimestamp net) timestamp
                (Z.to_nat (L + 1)) (costs_getBlockTimestamp net)
                0 L 0 MAX_SAFE_INTEGER [] ltac:(lia)
                (set_sent (EthBlockNumber :: sent w) w)) as Hloop.
  replace (L - 0 + 1) with (L + 1) in Hloop by lia.
  unfold set_sent in *. cbn [sent elapsed length] in Hloop. lia.
Qed.

Lemma getEVMBlockByTimestamp_cost_witness :
  (length (sent (snd (getEVMBlockByTimestamp flakyNet 1042
                        (set_sent [EthBlockNumber; EthBlockNumber] emptyWorld))))
   <= length (sent (set_sent [EthBlockNumber; EthBlockNumber] emptyWorld))
      + 1 + 3 * probeBound (10 + 1))%nat /\
  elapsed (set_sent [EthBlockNumber; EthBlockNumber] emptyWorld)
  <= elapsed (snd (getEVMBlockByTimestamp flakyNet 1042
                     (set_sent [EthBlockNumber; EthBlockNumber] emptyWorld)))
  <= elapsed (set_sent [EthBlockNumber; EthBlockNumber] emptyWorld)
     + 1000 * Z.of_nat (2 * probeBound (10 + 1)).
Proof.
  refine (getEVMBlockByTimestamp_cost flakyNet 1042 10
            (set_sent [EthBlockNumber; EthBlockNumber] emptyWorld) _).
  reflexivity.
Defined.

(** X8: whatever the remote answers, and whether it returns or throws,
    [getSolanaBlockByTimestamp] sends at most
    [607 + 3 * (log2 (L + 1) + 1)] requests: one for the latest slot [L],
    three for slot 0, three for each lookup of the search, three for the
    seed and six for each of the hundred offsets of the refinement. *)
Theorem getSolanaBlockByTimestamp_cost (net : Remote) (timestamp L : Z)
    (w : World) :
  getSlot net (length (sent w)) = Ok L ->
  (length (sent (snd (getSolanaBlockByTimestamp net timestamp w)))
   <= length (sent w) + 607 + 3 * probeBound (L + 1))%nat /\
  elapsed w <= elapsed (snd (getSolanaBlockByTimestamp net timestamp w))
  <= elapsed w + 1000 * Z.of_nat (404 + 2 * probeBound (L + 1)).
Proof.
  intros Hlatest.
  set (w0 := set_sent (SolGetSlot :: sent w) w).
  assert (Hrest :
    costs (3 + (3 * probeBound (L + 1) + (3 + 6 * 100)))
          (2 + (2 * probeBound (L + 1) + (2 + 4 * 100)))
      (genesisTimestamp <- getCachedSlotTime net 0 ;;
       if timestamp <=? genesisTimestamp then ret 0
       else
         r <- searchLoop (getCachedSlotTime net) timestamp 0 L 0
                MAX_SAFE_INTEGER [] ;;
         match fst r with
         | Found middleSlot => ret middleSlot
         | Closest closestSlot =>
             refineSlotSearchSolana net closestSlot timestamp
         end)).
  { apply costs_bind; [apply costs_getCachedSlotTime|]. intros g.
    destruct (timestamp <=? g);
      [apply (costs_weaken 0 _ 0); [lia|lia|apply costs_ret]|].
    apply costs_bind.
    - pose proof (costs_searchLoop (getCachedSlotTime net) timestamp
                    (Z.to_nat (L + 1)) (costs_getCachedSlotTime net)
                    0 L 0 MAX_SAFE_INTEGER [] ltac:(lia)) as Hloop.
      replace (L - 0 + 1) with (L + 1) in Hloop by lia. exact Hloop.
    - intros [[i|i] probed]; cbn [fst];
        [apply (costs_weaken 0 _ 0); [lia|lia|apply costs_ret]|].
      unfold refineSlotSearchSolana.
      apply costs_bind; [apply costs_getCachedSlotTime|]. intros t.
      apply (costs_refineLoop net 100). }
  specialize (Hrest w0).
  match type of Hrest with
  | context [snd (?rest w0)] =>
      assert (Hsnd : snd (getSolanaBlockByTimestamp net timestamp w)
                     = snd (rest w0))
  end.
  { unfold getSolanaBlockByTimestamp, getLatestSlot, rpc.
    unfold bind at 1. rewrite Hlatest. reflexivity. }
  rewrite Hsnd.
  unfold w0, set_sent in Hrest. cbn [sent elapsed length] in Hrest.
  unfold w0, set_sent. lia.
Qed.

Lemma getSolanaBlockByTimestamp_cost_witness :
  (length (sent (snd (getSolanaBlockByTimestamp exampleNet 200000 emptyWorld)))
   <= length (sent emptyWorld) + 607 + 3 * probeBound (100000 + 1))%nat /\
  elapsed emptyWorld
  <= elapsed (snd (getSolanaBlockByTimestamp exampleNet 200000 emptyWorld))
  <= elapsed emptyWorld + 1000 * Z.of_nat (404 + 2 * probeBound (100000 + 1)).
Proof.
  refine (getSolanaBlockByTimestamp_cost exampleNet 200000 100000 emptyWorld _).
  reflexivity.
Defined.

(** ** The slot returned, whatever the remote answers *)

Lemma refineLoop_range (net : Remote) (remaining : nat) :
  forall (offset s target c d r : Z) (w w' : World),
    refineLoop net remaining offset s target c d w = (Ok r, w') ->
    1 <= offset -> s - (offset - 1) <= c <= s + (offset - 1) ->
    s - (offset + Z.of_nat remaining - 1) <= r
    <= s + (offset + Z.of_nat remaining - 1).
Proof.
  induction remaining as [|remaining IH];
    intros offset s target c d r w w' Hrun Hoff Hc.
  - inversion Hrun; subst. lia.
  - cbn [refineLoop] in Hrun. unfold bind at 1 in Hrun.
    destruct (getCachedSlotTime net (s + offset) w) as [[ft|e] w1];
      [|discriminate].
    unfold bind at 1 in Hrun.
    destruct (getCachedSlotTime net (s - offset) w1) as [[bt|e] w2];
      [|discriminate].
    match type of Hrun with
    | (if ?b then _ else _) _ = _ => destruct b
    end.
    + inversion Hrun; subst.
      destruct (Z.abs (ft - target) <? d);
        match goal with
        | |- context [if ?b then _ else _] => destruct b
        end; lia.
    + apply IH in Hrun; [lia|lia|].
      destruct (Z.abs (ft - target) <? d);
        match goal with
        | |- context [if ?b then _ else _] => destruct b
        end; lia.
Qed.

(** X9: whatever the remote answers, when the latest slot is [L] and
    [getSolanaBlockByTimestamp] returns, the slot is at most a hundred
    slots outside [0..L]: the refinement looks at most a hundred slots
    away from a seed of [0..L], and does not compare with [L]. *)
Theorem getSolanaBlockByTimestamp_near_range (net : Remote)
    (timestamp L r : Z) (w w' : World) :
  getSlot net (length (sent w)) = Ok L ->
  getSolanaBlockByTimestamp net timestamp w = (Ok r, w') ->
  - MAX_SEARCH_OFFSET <= r <= Z.max 0 L + MAX_SEARCH_OFFSET.
Proof.
  intros Hlatest Hrun. unfold MAX_SEARCH_OFFSET.
  unfold getSolanaBlockByTimestamp, getLatestSlot, rpc in Hrun.
  unfold bind at 1 in Hrun. rewrite Hlatest in Hrun.
  unfold bind at 1 in Hrun.
  destruct (getCachedSlotTime net 0 _) as [[g|e] w1]; [|discriminate].
  destruct (timestamp <=? g); [inversion Hrun; subst; lia|].
  unfold bind at 1 in Hrun.
  destruct (searchLoop _ _ _ _ _ _ _ _) as [[[x probed]|e] w2] eqn:Hloop;
    [|discriminate].
  apply (searchLoop_probes_in_window _ _ (Z.to_nat (L + 1))) in Hloop; [|lia].
  destruct Hloop as [more [_ [Hin [_ Hx]]]].
  cbn [fst] in Hrun. destruct x as [m|c].
  - inversion Hrun; subst. specialize (Hin _ Hx). lia.
  - assert (Hc : 0 <= c <= Z.max 0 L).
    { destruct Hx as [->|Hx]; [lia|]. specialize (Hin _ Hx). lia. }
    unfold refineSlotSearchSolana, bind in Hrun.
    destruct (getCachedSlotTime net c w2) as [[t|e] w3]; [|discriminate].
    apply refineLoop_range in Hrun; [|lia|lia].
    unfold MAX_SEARCH_OFFSET in Hrun. lia.
Qed.

Lemma getSolanaBlockByTimestamp_near_range_witness :
  - MAX_SEARCH_OFFSET <= 10 <= Z.max 0 3 + MAX_SEARCH_OFFSET.
Proof.
  refine (getSolanaBlockByTimestamp_near_range laggingNet 1000 3 10 emptyWorld
            (snd (getSolanaBlockByTimestamp laggingNet 1000 emptyWorld)) _ _).
  - reflexivity.
  - vm_compute. reflexivity.
Defined.

(** ** The Solana path over slots in order *)

Section SolanaSearch.

Variable net : Remote.
Variable slots : Z -> option Z.
Variable N : Z.
Variable ts : Z -> Z.

Hypothesis source : slotSource net slots.
Hypothesis timed : forall i, 0 <= i <= N -> slots i = Some (ts i).
Hypothesis ordered : forall i j, 0 <= i <= j -> j <= N -> ts i <= ts j.

Lemma getCachedSlotTime_timed (i : Z) (w : World) :
  0 <= i <= N -> slotCacheAgrees slots w ->
  exists w', getCachedSlotTime net i w = (Ok (ts i), w')
             /\ slotCacheAgrees slots w'.
Proof.
  intros Hi Hagree.
  destruct (getCachedSlotTime_found net slots source i (ts i) w Hagree
              (timed i Hi)) as [w' [Hrun [Hagree' _]]].
  eauto.
Qed.

(** After the genesis test, the search runs to its end, and the resolution
    is its exact hit or the refinement of its closest slot. *)
Lemma solana_search_run (target : Z) (w : World) :
  0 <= N -> slotCacheAgrees slots w ->
  getSlot net (length (sent w)) = Ok N ->
  ts 0 < target ->
  exists x probed w1,
    slotCacheAgrees slots w1 /\
    searchPost N ts target x probed /\
    getSolanaBlockByTimestamp net target w
    = match x with
      | Found m => (Ok m, w1)
      | Closest c => refineSlotSearchSolana net c target w1
      end.
Proof.
  intros HN Hagree Hlatest Hafter.
  set (w0 := set_sent (SolGetSlot :: sent w) w).
  assert (Hagree0 : slotCacheAgrees slots w0) by exact Hagree.
  destruct (getCachedSlotTime_timed 0 w0 ltac:(lia) Hagree0)
    as [wg [Hgenesis Hagreeg]].
  destruct (searchLoop_spec (getCachedSlotTime net) N target ts
              (slotCacheAgrees slots) getCachedSlotTime_timed ordered
              (Z.to_nat (N + 1)) 0 N 0 MAX_SAFE_INTEGER [] wg)
    as [x [probed [w1 [Hloop [Hagree1 Hpost]]]]];
    try lia; try (intros; lia); try exact Hagreeg.
  { intros p Hp. inversion Hp. }
  { left. split; [reflexivity|]. split; [reflexivity|].
    intros p Hp. inversion Hp. }
  exists x, probed, w1. split; [exact Hagree1|]. split; [exact Hpost|].
  unfold getSolanaBlockByTimestamp, getLatestSlot, rpc.
  unfold bind at 1. rewrite Hlatest. fold w0.
  unfold bind at 1. rewrite Hgenesis.
  destruct (Z.leb_spec target (ts 0)); [lia|].
  unfold bind at 1. rewrite Hloop. cbn [fst].
  destruct x; reflexivity.
Qed.

(** A search that ends without an exact hit: no slot has the time of the
    target. *)
Lemma searchPost_no_hit (target c : Z) (probed : list Z) :
  searchPost N ts target (Closest c) probed ->
  forall i, 0 <= i <= N -> ts i <> target.
Proof.
  intros [_ [Hnohit [d [Hcand Hbest]]]] i Hi Heq.
  specialize (Hbest i Hi).
  destruct Hcand as [[-> _]|[_ [before [after [-> [Hd _]]]]]].
  - unfold MAX_SAFE_INTEGER in Hbest. lia.
  - apply (Hnohit c); [apply elem_of_app; right; left|lia].
Qed.

(** The closest slot of a search, when some slot is within the range of the
    sentinel: no slot of [0..N] is closer. *)
Lemma searchPost_closest (target c : Z) (probed : list Z) :
  searchPost N ts target (Closest c) probed ->
  (exists i, 0 <= i <= N /\ Z.abs (ts i - target) < MAX_SAFE_INTEGER) ->
  0 <= c <= N /\
  forall i, 0 <= i <= N -> Z.abs (ts c - target) <= Z.abs (ts i - target).
Proof.
  intros [Hrange [_ [d [Hcand Hbest]]]] [i0 [Hi0 Hnear]].
  destruct Hcand as [[-> _]|[_ [before [after [-> [Hd _]]]]]].
  - specialize (Hbest i0 Hi0). lia.
  - split; [apply Hrange, elem_of_app; right; left|].
    intros i Hi. rewrite Hd. apply Hbest, Hi.
Qed.

End SolanaSearch.

(** X10: over slots [0..N] whose times never decrease, a target after the
    time of slot 0 that is the time of some slot resolves to a slot with
    exactly that time. *)
Theorem getSolanaBlockByTimestamp_exact (net : Remote)
    (slots : Z -> option Z) (N : Z) (ts : Z -> Z) (target : Z) (w : World) :
  slotSource net slots ->
  (forall i, 0 <= i <= N -> slots i = Some (ts i)) ->
  (forall i j, 0 <= i <= j -> j <= N -> ts i <= ts j) ->
  0 <= N -> slotCacheAgrees slots w ->
  getSlot net (length (sent w)) = Ok N ->
  ts 0 < target ->
  (exists i, 0 <= i <= N /\ ts i = target) ->
  exists r w',
    getSolanaBlockByTimestamp net target w = (Ok r, w') /\
    0 <= r <= N /\ ts r = target.
Proof.
  intros Hsource Htimed Hordered HN Hagree Hlatest Hafter [i [Hi Hhit]].
  destruct (solana_search_run net slots N ts Hsource Htimed Hordered target w
              HN Hagree Hlatest Hafter)
    as [x [probed [w1 [_ [Hpost Hrun]]]]].
  destruct x as [m|c].
  - exists m, w1. split; [exact Hrun|].
    destruct Hpost as [Hrange [before [-> [Hm _]]]].
    split; [|exact Hm].
    apply Hrange, elem_of_app. right. apply list_elem_of_singleton. reflexivity.
  - exfalso. apply (searchPost_no_hit N ts target c probed Hpost i Hi Hhit).
Qed.

Lemma getSolanaBlockByTimestamp_exact_witness :
  exists r w',
    getSolanaBlockByTimestamp exampleNet 5070 emptyWorld = (Ok r, w') /\
    0 <= r <= 100000 /\ (fun i => 5000 + i) r = 5070.
Proof.
  refine (getSolanaBlockByTimestamp_exact exampleNet exampleSlots 100000
            (fun i => 5000 + i) 5070 emptyWorld exampleNet_source _ _ _
            (emptyWorld_slots_agree exampleSlots) _ _ _).
  - intros i Hi. unfold exampleSlots.
    destruct (decide (0 <= i <= 100000)); [reflexivity|lia].
  - intros i j Hij Hj. lia.
  - lia.
  - reflexivity.
  - lia.
  - exists 70. lia.
Defined.

(** X11: with a time for every slot, those of [0..N] never decreasing, a
    target after the time of slot 0 and within the range of the sentinel
    resolves to a slot than which no slot of [0..N] is closer to the
    target; the slot is at most a hundred slots outside [0..N]. *)
Theorem getSolanaBlockByTimestamp_closest (net : Remote) (N : Z)
    (ts : Z -> Z) (target : Z) (w : World) :
  slotSource net (fun i => Some (ts i)) ->
  (forall i j, 0 <= i <= j -> j <= N -> ts i <= ts j) ->
  0 <= N -> slotCacheAgrees (fun i => Some (ts i)) w ->
  getSlot net (length (sent w)) = Ok N ->
  ts 0 < target ->
  (exists i, 0 <= i <= N /\ Z.abs (ts i - target) < MAX_SAFE_INTEGER) ->
  exists r w',
    getSolanaBlockByTimestamp net target w = (Ok r, w') /\
    (forall i, 0 <= i <= N ->
               Z.abs (ts r - target) <= Z.abs (ts i - target)) /\
    - MAX_SEARCH_OFFSET <= r <= N + MAX_SEARCH_OFFSET.
Proof.
  intros Hsource Hordered HN Hagree Hlatest Hafter Hnear.
  destruct (solana_search_run net (fun i => Some (ts i)) N ts Hsource
              ltac:(reflexivity) Hordered target w HN Hagree Hlatest Hafter)
    as [x [probed [w1 [Hagree1 [Hpost Hrun]]]]].
  destruct x as [m|c].
  - exists m, w1. split; [exact Hrun|].
    destruct Hpost as [Hrange [before [-> [Hm _]]]].
    assert (HmN : 0 <= m <= N)
      by (apply Hrange, elem_of_app; right; apply list_elem_of_singleton;
          reflexivity).
    split; [intros i Hi; lia|]. unfold MAX_SEARCH_OFFSET. lia.
  - destruct (searchPost_closest N ts target c probed Hpost Hnear)
      as [HcN Hbest].
    destruct (getCachedSlotTime_found net (fun i => Some (ts i)) Hsource
                c (ts c) w1 Hagree1 eq_refl) as [w2 [Hseed [Hagree2 _]]].
    destruct (refineLoop_spec net ts c target Hsource
                (Z.to_nat MAX_SEARCH_OFFSET) 1 c (Z.abs (ts c - target)) w2)
      as [r [k [w' [Hloop [_ [_ [[Hk [Hr [Hclosest _]]] _]]]]]]];
      try (unfold MAX_SEARCH_OFFSET; lia); try exact Hagree2;
      try reflexivity.
    { intros i Hi. replace i with c by lia. lia. }
    exists r, w'. split; [|split].
    + rewrite Hrun. unfold refineSlotSearchSolana, bind. rewrite Hseed.
      exact Hloop.
    + intros i Hi. specialize (Hclosest c ltac:(lia)).
      specialize (Hbest i Hi). lia.
    + lia.
Qed.

Lemma noisyTs_ordered (i j : Z) : i <= j -> noisyTs i <= noisyTs j.
Proof.
  intros Hij. destruct (decide (i = j)) as [->|Hne]; [lia|].
  unfold noisyTs. destruct (Z.even i), (Z.even j); lia.
Qed.

Lemma getSolanaBlockByTimestamp_closest_witness :
  exists r w',
    getSolanaBlockByTimestamp noisySlots 2000 emptyWorld = (Ok r, w') /\
    (forall i, 0 <= i <= 1000 ->
               Z.abs (noisyTs r - 2000) <= Z.abs (noisyTs i - 2000)) /\
    - MAX_SEARCH_OFFSET <= r <= 1000 + MAX_SEARCH_OFFSET.
Proof.
  refine (getSolanaBlockByTimestamp_closest noisySlots 1000 noisyTs 2000
            emptyWorld noisySlots_source _ _
            (emptyWorld_slots_agree (fun i => Some (noisyTs i))) _ _ _).
  - intros i j Hij Hj. apply noisyTs_ordered. lia.
  - lia.
  - reflexivity.
  - vm_compute. reflexivity.
  - exists 0. vm_compute. split; [split; discriminate|reflexivity].
Defined.

(** X12: over slots [0..N] with strictly increasing times, the resolution
    throws at both ends of the chain. A target after the time of the latest
    slot makes the search end on slot [N], and the refinement then asks for
    slot [N + 1]: when it has no time, the resolution throws. A target after
    the time of slot 0 and closer to it than to the time of slot 1 makes the
    search end on slot 0, and the refinement asks for slot [-1]: when it has
    no time, the resolution throws. This is so however close the seed is to
    the target. *)
Theorem getSolanaBlockByTimestamp_fails_at_the_ends (net : Remote)
    (slots : Z -> option Z) (N : Z) (ts : Z -> Z) (target : Z) (w : World) :
  slotSource net slots ->
  (forall i, 0 <= i <= N -> slots i = Some (ts i)) ->
  (forall i j, 0 <= i < j -> j <= N -> ts i < ts j) ->
  0 <= N -> slotCacheAgrees slots w ->
  getSlot net (length (sent w)) = Ok N ->
  (ts N < target -> target - ts N < MAX_SAFE_INTEGER ->
   slots (N + 1) = None ->
   exists w', getSolanaBlockByTimestamp net target w
              = (Throw (slotNotFound (N + 1)), w')) /\
  (1 <= N -> ts 0 < target -> 2 * target < ts 0 + ts 1 ->
   target - ts 0 < MAX_SAFE_INTEGER -> slots (0 - 1) = None ->
   exists w', getSolanaBlockByTimestamp net target w
              = (Throw (slotNotFound (0 - 1)), w')).
Proof.
  intros Hsource Htimed Hstrict HN Hagree Hlatest.
  assert (Hordered : forall i j, 0 <= i <= j -> j <= N -> ts i <= ts j).
  { intros i j Hij HjN. destruct (decide (i = j)) as [->|Hne]; [lia|].
    apply Z.lt_le_incl, Hstrict; lia. }
  split.
  - intros Hafter Hnear Hnone.
    pose proof (Hordered 0 N ltac:(lia) ltac:(lia)) as H0N.
    destruct (solana_search_run net slots N ts Hsource Htimed Hordered target
                w HN Hagree Hlatest ltac:(lia))
      as [x [probed [w1 [Hagree1 [Hpost Hrun]]]]].
    destruct x as [m|c].
    + exfalso. destruct Hpost as [Hrange [before [-> [Hm _]]]].
      assert (HmN : 0 <= m <= N)
        by (apply Hrange, elem_of_app; right; apply list_elem_of_singleton;
            reflexivity).
      pose proof (Hordered m N ltac:(lia) ltac:(lia)). lia.
    + destruct (searchPost_closest N ts target c probed Hpost)
        as [HcN Hbest]; [exists N; lia|].
      assert (c = N) as ->.
      { destruct (decide (c = N)) as [HcEq|Hne]; [exact HcEq|].
        pose proof (Hstrict c N ltac:(lia) ltac:(lia)).
        specialize (Hbest N ltac:(lia)). lia. }
      destruct (getCachedSlotTime_found net slots Hsource N (ts N) w1 Hagree1
                  (Htimed N ltac:(lia))) as [w2 [Hseed [Hagree2 _]]].
      destruct (refineLoop_forward_missing net slots N target Hsource 99 1 N
                  (Z.abs (ts N - target)) w2 Hagree2 Hnone) as [w' Hloop].
      exists w'. rewrite Hrun. unfold refineSlotSearchSolana, bind.
      rewrite Hseed. exact Hloop.
  - intros HN1 Hafter Hcloser Hnear Hnone.
    pose proof (Hstrict 0 1 ltac:(lia) ltac:(lia)) as H01.
    destruct (solana_search_run net slots N ts Hsource Htimed Hordered target
                w HN Hagree Hlatest Hafter)
      as [x [probed [w1 [Hagree1 [Hpost Hrun]]]]].
    destruct x as [m|c].
    + exfalso. destruct Hpost as [Hrange [before [-> [Hm _]]]].
      assert (HmN : 0 <= m <= N)
        by (apply Hrange, elem_of_app; right; apply list_elem_of_singleton;
            reflexivity).
      destruct (decide (m = 0)) as [->|Hne]; [lia|].
      pose proof (Hordered 1 m ltac:(lia) ltac:(lia)). lia.
    + destruct (searchPost_closest N ts target c probed Hpost)
        as [HcN Hbest]; [exists 0; lia|].
      assert (c = 0) as ->.
      { destruct (decide (c = 0)) as [HcEq|Hne]; [exact HcEq|].
        pose proof (Hordered 1 c ltac:(lia) ltac:(lia)).
        specialize (Hbest 0 ltac:(lia)). lia. }
      destruct (getCachedSlotTime_found net slots Hsource 0 (ts 0) w1 Hagree1
                  (Htimed 0 ltac:(lia))) as [w2 [Hseed [Hagree2 _]]].
      destruct (refineLoop_backward_missing net slots 0 target Hsource 99 1 0
                  (Z.abs (ts 0 - target)) (ts 1) w2 Hagree2
                  (Htimed (0 + 1) ltac:(lia)) Hnone) as [w' Hloop].
      exists w'. rewrite Hrun. unfold refineSlotSearchSolana, bind.
      rewrite Hseed. exact Hloop.
Qed.

Lemma getSolanaBlockByTimestamp_fails_at_the_ends_witness :
  exists w', getSolanaBlockByTimestamp exampleNet 105001 emptyWorld
             = (Throw (slotNotFound (100000 + 1)), w').
Proof.
  refine (proj1 (getSolanaBlockByTimestamp_fails_at_the_ends exampleNet
                   exampleSlots 100000 (fun i => 5000 + i) 105001 emptyWorld
                   exampleNet_source _ _ _
                   (emptyWorld_slots_agree exampleSlots) _) _ _ _).
  - intros i Hi. unfold exampleSlots.
    destruct (decide (0 <= i <= 100000)); [reflexivity|lia].
  - intros i j Hij Hj. lia.
  - lia.
  - reflexivity.
  - lia.
  - unfold MAX_SAFE_INTEGER. lia.
  - reflexivity.
Defined.

(** ** What every call of the module keeps *)

Section Keeps.

Variable R : World -> World -> Prop.
Hypothesis R_refl : forall w, R w w.
Hypothesis R_trans : forall w1 w2 w3, R w1 w2 -> R w2 w3 -> R w1 w3.

Lemma keeps_ret {A} (v : A) : keeps R (ret v).
Proof. intros w. apply R_refl. Qed.

Lemma keeps_throw {A} (e : JsError) : keeps R (@throw A e).
Proof. intros w. apply R_refl. Qed.

Lemma keeps_bind {A B} (m : M A) (k : A -> M B) :
  keeps R m -> (forall x, keeps R (k x)) -> keeps R (bind m k).
Proof.
  intros Hm Hk w. unfold bind. specialize (Hm w).
  destruct (m w) as [[x|e] w1]; simpl in *; [|exact Hm].
  eapply R_trans; [exact Hm | apply Hk].
Qed.

Lemma keeps_searchLoop (lookup : Z -> M Z) (timestamp : Z) (n : nat) :
  (forall i, keeps R (lookup i)) ->
  forall (s e c d : Z) (probed : list Z),
    (Z.to_nat (e - s + 1) <= n)%nat ->
    keeps R (searchLoop lookup timestamp s e c d probed).
Proof.
  intros Hlookup.
  induction n as [|n IH]; intros s e c d probed Hn w;
    rewrite searchLoop_step;
    destruct (decide (s <= e)) as [Hle|Hgt]; try lia; try apply R_refl.
  cbv zeta. pose proof (middle_in_window s e Hle) as Hmid.
  set (m := (s + e) / 2) in *.
  pose proof (Hlookup m w) as Hstep.
  destruct (lookup m w) as [[t|err] w1]; simpl in Hstep; [|exact Hstep].
  destruct (t =? timestamp); [exact Hstep|].
  destruct (t <? timestamp);
    (eapply R_trans; [exact Hstep|]); apply IH; lia.
Qed.

Variable net : Remote.

Hypothesis keeps_delay : forall ms, keeps R (delay ms).
Hypothesis keeps_rpc :
  forall A rq (answer : nat -> Res A), keeps R (rpc rq answer).
Hypothesis keeps_lookup :
  forall cache key, keeps R (perform net (lookupCall (cache, key))).

Lemma keeps_refineLoop (remaining : nat) :
  forall offset initialSlot targetTimestamp closestSlot closestTimeDifference,
    keeps R (refineLoop net remaining offset initialSlot targetTimestamp
               closestSlot closestTimeDifference).
Proof.
  induction remaining as [|remaining IH]; intros; cbn [refineLoop].
  - apply keeps_ret.
  - apply keeps_bind; [apply (keeps_lookup SlotTimeCache)|]. intros ft.
    apply keeps_bind; [apply (keeps_lookup SlotTimeCache)|]. intros bt.
    match goal with |- keeps R (if ?b then _ else _) => destruct b end;
      [apply keeps_ret|apply IH].
Qed.

Lemma keeps_perform (op : Operation) : keeps R (perform net op).
Proof.
  destruct op; cbn [perform].
  - apply keeps_bind; [apply keeps_delay|intros; apply keeps_ret].
  - apply (keeps_lookup BlockTimestampCache).
  - apply keeps_rpc.
  - unfold getEVMBlockByTimestamp, getEVMBlockByTimestamp_probes.
    repeat (apply keeps_bind; [|intros ?]); try apply keeps_ret.
    + apply keeps_rpc.
    + apply (keeps_searchLoop _ _ (Z.to_nat (x + 1)));
        [apply (keeps_lookup BlockTimestampCache)|lia].
  - apply keeps_rpc.
  - apply (keeps_lookup SlotTimeCache).
  - unfold getSlotTime. apply keeps_bind; [apply keeps_rpc|].
    intros [t|]; [apply keeps_ret|apply keeps_throw].
  - unfold getSolanaBlockByTimestamp.
    apply keeps_bind; [apply keeps_rpc|]. intros latestSlot.
    apply keeps_bind; [apply (keeps_lookup SlotTimeCache)|]. intros g.
    destruct (timestamp <=? g); [apply keeps_ret|].
    apply keeps_bind.
    + apply (keeps_searchLoop _ _ (Z.to_nat (latestSlot + 1)));
        [apply (keeps_lookup SlotTimeCache)|lia].
    + intros [[i|i] probed]; cbn [fst]; [apply keeps_ret|].
      apply keeps_bind; [apply (keeps_lookup SlotTimeCache)|].
      intros t. apply keeps_refineLoop.
  - apply (keeps_lookup BlockTimestampCache).
  - unfold getTimestampBySlot.
    apply keeps_bind; [apply keeps_rpc|]. intros latestSlot.
    destruct ((slot <? 0) || (latestSlot <? slot));
      [apply keeps_throw|apply (keeps_lookup SlotTimeCache)].
Qed.

Lemma keeps_performAll (ops : list Operation) :
  forall w, R w (performAll net ops w).
Proof.
  induction ops as [|op ops IH]; intros w; cbn [performAll].
  - apply R_refl.
  - eapply R_trans; [apply keeps_perform | apply IH].
Qed.

End Keeps.

(** ** The caches hold what the remote answered *)

Lemma groundedStep_refl (net : Remote) (base w : World) :
  groundedStep net base w w.
Proof. split; [exists []; reflexivity|auto]. Qed.

Lemma groundedStep_trans (net : Remote) (base w1 w2 w3 : World) :
  groundedStep net base w1 w2 -> groundedStep net base w2 w3 ->
  groundedStep net base w1 w3.
Proof.
  intros [[m1 H1] G1] [[m2 H2] G2]. split; [|auto].
  exists (m2 ++ m1). rewrite H2, H1. apply app_assoc.
Qed.

(** A request of the log keeps its number when the log grows. *)
Lemma rev_lookup_grows (more l : list Request) (n : nat) (rq : Request) :
  rev l !! n = Some rq -> rev (more ++ l) !! n = Some rq.
Proof. intros H. rewrite rev_app_distr. apply lookup_app_l_Some, H. Qed.

Lemma groundedStep_same_caches (net : Remote) (base w w' : World) :
  (forall c, readCache c w' = readCache c w) ->
  (exists more, sent w' = more ++ sent w) ->
  groundedStep net base w w'.
Proof.
  intros Hcaches [more Hsent]. split; [eauto|].
  intros Hg c key t Hkey. rewrite Hcaches in Hkey.
  destruct (Hg c key t Hkey) as [Hbase|[n [Hn Ha]]]; [left; exact Hbase|].
  right. exists n. split; [|exact Ha].
  rewrite Hsent. apply rev_lookup_grows, Hn.
Qed.

Lemma repeat_lookup {A} (x : A) (n i : nat) :
  (i < n)%nat -> repeat x n !! i = Some x.
Proof.
  revert i. induction n as [|n IH]; intros i Hi; [lia|].
  destruct i as [|i]; [reflexivity|]. simpl. apply IH. lia.
Qed.

(** The requests of a lookup have the numbers that follow the log. *)
Lemma rev_lookup_tries (rq : Request) (tries i : nat) (l : list Request) :
  (i < tries)%nat ->
  rev (repeat rq tries ++ l) !! (length l + i)%nat = Some rq.
Proof.
  intros Hi. rewrite rev_app_distr, rev_repeat.
  rewrite lookup_app_r by (rewrite length_rev; lia).
  rewrite length_rev. replace (length l + i - length l)%nat with i by lia.
  apply repeat_lookup, Hi.
Qed.

Lemma fetched_Ok (cache : CacheRef) (key t : Z) (answer : Res (option Z)) :
  fetched cache key answer = Ok t -> answer = Ok (Some t).
Proof. destruct answer as [[t'|]|e]; simpl; congruence. Qed.

Lemma groundedStep_lookup (net : Remote) (base : World) (cache : CacheRef)
    (key : Z) :
  keeps (groundedStep net base) (perform net (lookupCall (cache, key))).
Proof.
  intros w.
  destruct (readCache cache w !! key) as [v|] eqn:Hkey.
  { rewrite (lookup_hit net cache key v w Hkey). apply groundedStep_refl. }
  destruct (lookup_outcome net cache key w Hkey)
    as [tries [Htries [_ Hlast]]].
  destruct (fetched cache key _) as [t|e] eqn:Hfetched.
  - rewrite Hlast. cbn [snd]. apply fetched_Ok in Hfetched.
    split.
    + exists (repeat (requestFor cache key) tries). destruct cache; reflexivity.
    + intros Hg c k t' Hk.
      assert (Hsent : sent (afterTries cache key tries (Some t) w)
                      = repeat (requestFor cache key) tries ++ sent w)
        by (destruct cache; reflexivity).
      assert (Hread : readCache c (afterTries cache key tries (Some t) w)
                      = if decide (c = cache)
                        then <[key := t]> (readCache cache w)
                        else readCache c w)
        by (destruct c, cache; reflexivity).
      rewrite Hread in Hk. rewrite Hsent.
      destruct (decide (c = cache)) as [->|Hne].
      * rewrite lookup_insert in Hk.
        destruct (decide (key = k)) as [<-|Hkne].
        -- inversion Hk; subst t'. right.
           exists (length (sent w) + (tries - 1))%nat.
           split; [apply rev_lookup_tries; lia|exact Hfetched].
        -- destruct (Hg cache k t' Hk) as [Hb|[n [Hn Ha]]]; [left; exact Hb|].
           right. exists n. split; [apply rev_lookup_grows, Hn|exact Ha].
      * destruct (Hg c k t' Hk) as [Hb|[n [Hn Ha]]]; [left; exact Hb|].
        right. exists n. split; [apply rev_lookup_grows, Hn|exact Ha].
  - destruct Hlast as [-> Hlast]. rewrite Hlast. cbn [snd].
    apply groundedStep_same_caches.
    + intros c. destruct c; reflexivity.
    + exists (repeat (requestFor cache key) 3). reflexivity.
Qed.

(** X13: whatever the remote answers and whatever calls are made, a
    timestamp found in a cache afterwards was there before or is the answer
    the remote gave to a request for that very key, one of the requests of
    the log: the module caches nothing else. *)
Theorem caches_stay_grounded (net : Remote) (ops : list Operation)
    (w : World) :
  forall cache key t,
    readCache cache (performAll net ops w) !! key = Some t ->
    readCache cache w !! key = Some t \/
    exists n : nat,
      rev (sent (performAll net ops w)) !! n = Some (requestFor cache key) /\
      pointAnswer net cache n key = Ok (Some t).
Proof.
  assert (Hstep : groundedStep net w w (performAll net ops w)).
  { apply (keeps_performAll (groundedStep net w)).
    - apply groundedStep_refl.
    - apply groundedStep_trans.
    - intros ms w0. apply groundedStep_same_caches.
      + intros c. destruct c; reflexivity.
      + exists []. reflexivity.
    - intros A rq answer w0. apply groundedStep_same_caches.
      + intros c. destruct c; reflexivity.
      + exists [rq]. reflexivity.
    - apply groundedStep_lookup. }
  destruct Hstep as [_ Hg]. apply Hg.
  intros c key t Hkey. left. exact Hkey.
Qed.

Lemma caches_stay_grounded_witness :
  readCache SlotTimeCache emptyWorld !! 5 = Some 5005 \/
  exists n : nat,
    rev (sent (performAll exampleNet
                 [CallGetTimestampBySlot 5; CallGetCachedSlotTime 5] emptyWorld))
      !! n = Some (requestFor SlotTimeCache 5) /\
    pointAnswer exampleNet SlotTimeCache n 5 = Ok (Some 5005).
Proof.
  refine (caches_stay_grounded exampleNet
            [CallGetTimestampBySlot 5; CallGetCachedSlotTime 5] emptyWorld
            SlotTimeCache 5 5005 _).
  vm_compute. reflexivity.
Defined.

(** ** The cache of the request handler *)









(** ** The binary search over blocks stamped alike *)

(** X16: the timestamps of the blocks need not be strictly increasing:
    over blocks [0..N] whose timestamps never decrease, and a target within
    the range of the sentinel, [getEVMBlockByTimestamp] returns a block of
    [0..N] than which none is closer to the target, and a block stamped
    with the target itself when there is one. *)
Theorem getEVMBlockByTimestamp_closest_with_ties (net : Remote) (N : Z)
    (ts : Z -> Z) (target : Z) (w : World) :
  0 <= N -> evmChain net N ts -> blockCacheAgrees N ts w ->
  (forall i j, 0 <= i <= j -> j <= N -> ts i <= ts j) ->
  (exists i, 0 <= i <= N /\ Z.abs (ts i - target) < MAX_SAFE_INTEGER) ->
  exists r w',
    getEVMBlockByTimestamp net target w = (Ok r, w') /\
    0 <= r <= N /\
    (forall i, 0 <= i <= N ->
               Z.abs (ts r - target) <= Z.abs (ts i - target)) /\
    ((exists i, 0 <= i <= N /\ ts i = target) -> ts r = target).
Proof.
  intros HN Hchain Hagree Hordered Hnear.
  destruct (evm_search_run net N ts Hchain target w HN Hagree Hordered)
    as [x [probed [w' [_ [Hres [Hpost _]]]]]].
  exists (exitIndex x), w'. split; [exact Hres|].
  destruct x as [m|c]; simpl.
  - destruct Hpost as [Hrange [before [-> [Hm _]]]].
    split; [apply Hrange, elem_of_app; right; apply list_elem_of_singleton;
            reflexivity|].
    split; [intros i Hi; lia|]. intros _. exact Hm.
  - destruct (searchPost_closest N ts target c probed Hpost Hnear)
      as [HcN Hbest].
    split; [exact HcN|]. split; [exact Hbest|].
    intros [i [Hi Hhit]]. exfalso.
    apply (searchPost_no_hit N ts target c probed Hpost i Hi Hhit).
Qed.

Lemma tiedBlocks_chain : evmChain tiedBlocks 4 tiedTs.
Proof.
  split; [reflexivity|]. intros n i Hi. simpl.
  destruct (decide (0 <= i <= 4)); [reflexivity|lia].
Qed.

Lemma getEVMBlockByTimestamp_closest_with_ties_witness :
  exists r w',
    getEVMBlockByTimestamp tiedBlocks 2000 emptyWorld = (Ok r, w') /\
    0 <= r <= 4 /\
    (forall i, 0 <= i <= 4 ->
               Z.abs (tiedTs r - 2000) <= Z.abs (tiedTs i - 2000)) /\
    ((exists i, 0 <= i <= 4 /\ tiedTs i = 2000) -> tiedTs r = 2000).
Proof.
  refine (getEVMBlockByTimestamp_closest_with_ties tiedBlocks 4 tiedTs 2000
            emptyWorld _ tiedBlocks_chain (emptyWorld_agrees 4 tiedTs) _ _).
  - lia.
  - intros i j Hij Hj. unfold tiedTs.
    destruct (Z.leb_spec i 0), (Z.leb_spec j 0), (Z.leb_spec i 3),
      (Z.leb_spec j 3); lia.
  - exists 1. vm_compute. split; [split; discriminate|reflexivity].
Defined.

(** ** The order of the refiner *)

Section RefineTies.

Variable net : Remote.
Variable ts : Z -> Z.
Variables initialSlot target : Z.

Hypothesis source : slotSource net (fun i => Some (ts i)).

Local Abbreviation agrees := (slotCacheAgrees (fun i => Some (ts i))).
Local Abbreviation diff i := (Z.abs (ts i - target)).
Local Abbreviation within k i := (initialSlot - k <= i <= initialSlot + k).
Local Abbreviation rank i := (probeRank initialSlot i).

Lemma refineLoop_first_best (remaining : nat) :
  forall (offset c d : Z) (w : World),
    Z.of_nat remaining = MAX_SEARCH_OFFSET - offset + 1 ->
    1 <= offset <= MAX_SEARCH_OFFSET ->
    agrees w ->
    d = diff c -> within (offset - 1) c ->
    (forall i, within (offset - 1) i ->
               d <= diff i /\ (diff i = d -> rank c <= rank i)) ->
    (2 <= offset -> TIME_DIFFERENCE_THRESHOLD < d) ->
    exists r k w',
      refineLoop net remaining offset initialSlot target c d w = (Ok r, w')
      /\ offset <= k /\ refinePost ts initialSlot target r k
      /\ forall i, within k i -> diff i = diff r -> rank r <= rank i.
Proof.
  induction remaining as [|remaining IH];
    intros offset c d w Hrem Hoff Hagree Hd Hc Hbest Hfar; [lia|].
  destruct (refineLoop_iteration net (fun i => Some (ts i)) initialSlot target
              source remaining offset c d (ts (initialSlot + offset))
              (ts (initialSlot - offset)) w ltac:(lia) Hagree eq_refl eq_refl)
    as [w1 [Hagree1 [_ Hrun]]].
  rewrite Hrun. clear Hrun. cbv zeta.
  set (best := keepCloser (initialSlot - offset) (ts (initialSlot - offset))
                 target
                 (keepCloser (initialSlot + offset) (ts (initialSlot + offset))
                    target (c, d))).
  assert (Hinv : snd best = diff (fst best) /\ within offset (fst best) /\
                 forall i, within offset i ->
                   snd best <= diff i /\
                   (diff i = snd best -> rank (fst best) <= rank i)).
  { unfold best.
    destruct (keepCloser_cases (initialSlot + offset)
                (ts (initialSlot + offset)) target c d) as [[-> Hf]|[-> Hf]];
      match goal with
      | |- context [keepCloser ?s ?t target (?c1, ?d1)] =>
          destruct (keepCloser_cases s t target c1 d1) as [[-> Hb]|[-> Hb]]
      end; cbn [fst snd];
      (split; [first [exact Hd | reflexivity]|]);
      (split; [lia|]);
      intros i Hi;
      destruct (decide (i = initialSlot + offset)) as [->|Hne1];
      try (unfold probeRank;
           repeat match goal with
                  | |- context [?a =? ?b] => destruct (Z.eqb_spec a b)
                  | |- context [?a <? ?b] => destruct (Z.ltb_spec a b)
                  end; lia);
      destruct (decide (i = initialSlot - offset)) as [->|Hne2];
      try (unfold probeRank;
           repeat match goal with
                  | |- context [?a =? ?b] => destruct (Z.eqb_spec a b)
                  | |- context [?a <? ?b] => destruct (Z.ltb_spec a b)
                  end; lia);
      destruct (Hbest i ltac:(lia)) as [Hle Htie];
      (split; [lia|]); intros Heq; try lia; apply Htie; lia. }
  destruct Hinv as [Hd1 [Hc1 Hbest1]].
  assert (Hfar1 : 2 <= offset ->
                  forall i, within (offset - 1) i ->
                            TIME_DIFFERENCE_THRESHOLD < diff i).
  { intros H2 i Hi. specialize (Hfar H2).
    destruct (Hbest i Hi) as [Hle _]. lia. }
  assert (Hstop : snd best <= TIME_DIFFERENCE_THRESHOLD \/ remaining = 0%nat ->
            refinePost ts initialSlot target (fst best) offset /\
            forall i, within offset i -> diff i = diff (fst best) ->
                      rank (fst best) <= rank i).
  { intros Hwhy. split.
    - split; [lia|]. split; [exact Hc1|].
      split; [intros i Hi; rewrite <- Hd1; apply Hbest1, Hi|].
      split; [|exact Hfar1].
      destruct Hwhy as [Hnear|Hlast]; [left; rewrite <- Hd1; exact Hnear|].
      right. lia.
    - intros i Hi Heq. apply (Hbest1 i Hi). lia. }
  destruct (Z.leb_spec (snd best) TIME_DIFFERENCE_THRESHOLD) as [Hnear|Hstill].
  - exists (fst best), offset, w1.
    split; [reflexivity|]. split; [lia|]. apply Hstop. left. exact Hnear.
  - destruct remaining as [|remaining'].
    + exists (fst best), offset, w1.
      split; [reflexivity|]. split; [lia|]. apply Hstop. right. reflexivity.
    + assert (Hc2 : within (offset + 1 - 1) (fst best))
        by (replace (offset + 1 - 1) with offset by lia; exact Hc1).
      assert (Hbest2 : forall i, within (offset + 1 - 1) i ->
                snd best <= diff i /\
                (diff i = snd best -> rank (fst best) <= rank i))
        by (replace (offset + 1 - 1) with offset by lia; exact Hbest1).
      destruct (IH (offset + 1) (fst best) (snd best) w1 ltac:(lia) ltac:(lia)
                  Hagree1 Hd1 Hc2 Hbest2 ltac:(lia))
        as [r [k [w' [Hloop [Hk Hrest]]]]].
      exists r, k, w'. split; [exact Hloop|]. split; [lia|exact Hrest].
Qed.

End RefineTies.

(** X17: ties go to the slot looked up first. With a time for every slot,
    the slot [refineSlotSearchSolana] returns after [k] iterations is, among
    the slots within [k] of the seed that are as close to the target, the
    first in the order of the lookups: the seed, then one ahead, one behind,
    two ahead, two behind, and so on. *)
Theorem refineSlotSearchSolana_first_best (net : Remote) (ts : Z -> Z)
    (initialSlot target : Z) (w : World) :
  slotSource net (fun i => Some (ts i)) ->
  slotCacheAgrees (fun i => Some (ts i)) w ->
  exists r k w',
    refineSlotSearchSolana net initialSlot target w = (Ok r, w') /\
    refinePost ts initialSlot target r k /\
    forall i, initialSlot - k <= i <= initialSlot + k ->
              Z.abs (ts i - target) = Z.abs (ts r - target) ->
              probeRank initialSlot r <= probeRank initialSlot i.
Proof.
  intros Hsource Hagree.
  destruct (getCachedSlotTime_found net (fun i => Some (ts i)) Hsource
              initialSlot (ts initialSlot) w Hagree eq_refl)
    as [w0 [Hseed [Hagree0 _]]].
  destruct (refineLoop_first_best net ts initialSlot target Hsource
              (Z.to_nat MAX_SEARCH_OFFSET) 1 initialSlot
              (Z.abs (ts initialSlot - target)) w0)
    as [r [k [w' [Hloop [_ [Hpost Hties]]]]]];
    try (unfold MAX_SEARCH_OFFSET; lia); try exact Hagree0; try reflexivity.
  { intros i Hi. replace i with initialSlot by lia. split; lia. }
  exists r, k, w'. split; [|split; [exact Hpost|exact Hties]].
  unfold refineSlotSearchSolana, bind. rewrite Hseed. exact Hloop.
Qed.

Lemma refineSlotSearchSolana_first_best_witness :
  exists r k w',
    refineSlotSearchSolana laggingNet 7 750 emptyWorld = (Ok r, w') /\
    refinePost (fun i => 100 * i) 7 750 r k /\
    forall i, 7 - k <= i <= 7 + k ->
              Z.abs ((fun i => 100 * i) i - 750)
              = Z.abs ((fun i => 100 * i) r - 750) ->
              probeRank 7 r <= probeRank 7 i.
Proof.
  refine (refineSlotSearchSolana_first_best laggingNet (fun i => 100 * i)
            7 750 emptyWorld _ _).
  - intros n i. reflexivity.
  - intros i t H. simpl in H. rewrite lookup_empty in H. discriminate.
Defined.

(** ** A timestamp asked for twice *)

(** X18: the index -> timestamp calls on an index that is cached. The
    Solana call still asks for the latest slot, each time, and accepts the
    slots from 0 to the latest one, both included: it returns the cached
    time after that one request. The EVM call has no such check: it
    returns the cached timestamp without any request, whatever the latest
    block is. *)
Theorem cached_index_to_timestamp (net : Remote) (index t : Z) (w : World) :
  (forall latestSlot,
     slotTimeCache w !! index = Some t ->
     getSlot net (length (sent w)) = Ok latestSlot ->
     0 <= index <= latestSlot ->
     getTimestampBySlot net index w
     = (Ok t, set_sent (SolGetSlot :: sent w) w)) /\
  (blockTimestampCache w !! index = Some t ->
   getTimestampByBlockNumber net index w = (Ok t, w)).
Proof.
  split.
  - intros latestSlot Hcached Hlatest Hrange.
    unfold getTimestampBySlot, getLatestSlot, bind, rpc. rewrite Hlatest.
    destruct (Z.ltb_spec index 0); [lia|].
    destruct (Z.ltb_spec latestSlot index); [lia|].
    cbn [orb]. apply getCachedData_hit. exact Hcached.
  - intros Hcached. apply getCachedData_hit. exact Hcached.
Qed.

Lemma cached_index_to_timestamp_witness :
  getTimestampBySlot exampleNet 100000
    (set_slotTimeCache {[ 100000 := 105000 ]} emptyWorld)
  = (Ok 105000,
     set_sent [SolGetSlot] (set_slotTimeCache {[ 100000 := 105000 ]} emptyWorld)).
Proof.
  refine (proj1 (cached_index_to_timestamp exampleNet 100000 105000
                   (set_slotTimeCache {[ 100000 := 105000 ]} emptyWorld))
            100000 _ _ _).
  - reflexivity.
  - reflexivity.
  - lia.
Defined.
